(** * Accent: a shallow embedding of [accent.js]

    The script picks accent colours that stay away from a list of base
    colours.  This development embeds its pure helpers ([between],
    [rgbNumberToHex]), the loader of colour files, the statistics pass
    over the base colours, the candidate analyzer, the helpers of the
    rounds ([runAnalyzer], [adjustDelta], [runRound], [consolidate],
    [hasGoodDeltaAll]), the callbacks of the second and third round and
    the file cache ([memoize]), and proves what they compute.

    Conventions.
    - A JavaScript number that holds a measurement (Delta E, luma,
      contrast ratio) is a rational [Q]; an RGB number is an integer [Z].
      Rounding of IEEE doubles is not modelled.
    - A call that may throw returns in the [js] monad.
    - The colour mathematics of the npm packages (Lab conversion,
      CIEDE2000, luma, WCAG contrast) is a parameter, the record
      [ColorMath]. *)

From Stdlib Require Import ZArith QArith Qround Qabs Lqa String Ascii List Lia Bool.
From Stdlib Require Import Sorting.Permutation Sorting.Sorted.
From stdpp Require Import gmap strings sorting.
Import ListNotations.

Open Scope string_scope.
Open Scope list_scope.
Open Scope Z_scope.

(** ** Exceptions *)

Inductive js (A : Type) : Type :=
| Ret (a : A)
| Throw (msg : string).
Arguments Ret {A} a.
Arguments Throw {A} msg.

Definition bind {A B : Type} (m : js A) (k : A -> js B) : js B :=
  match m with
  | Ret a => k a
  | Throw e => Throw e
  end.

Notation "'do' x <- m ; k" := (bind m (fun x => k))
  (at level 10, x name, m at level 100, k at level 200).
Notation "'do' ' p <- m ; k" := (bind m (fun x => let 'p := x in k))
  (at level 10, p pattern, m at level 100, k at level 200).

Fixpoint mapM {A B : Type} (f : A -> js B) (l : list A) : js (list B) :=
  match l with
  | [] => Ret []
  | x :: xs => do y <- f x; do ys <- mapM f xs; Ret (y :: ys)
  end.

(** ** Numbers *)

Definition Qltb (a b : Q) : bool := negb (Qle_bool b a).

(** [Math.round]: the nearest integer, halves going up. *)
Definition Math_round (x : Q) : Z := Qfloor (x + (1 # 2))%Q.

(** ** Hexadecimal strings *)

Definition hexDigit (d : Z) : ascii :=
  match d with
  | 0 => "0" | 1 => "1" | 2 => "2" | 3 => "3" | 4 => "4" | 5 => "5"
  | 6 => "6" | 7 => "7" | 8 => "8" | 9 => "9" | 10 => "a" | 11 => "b"
  | 12 => "c" | 13 => "d" | 14 => "e" | _ => "f"
  end%char.

(** Digits of a non-negative integer in base 16, most significant first,
    in front of [acc].  An integer a double holds exactly has at most 14
    of them, which is the fuel [toString16] gives. *)
Fixpoint toString16_digits (fuel : nat) (n : Z) (acc : string) : string :=
  match fuel with
  | O => acc
  | S fuel' =>
      if n <? 16 then String (hexDigit n) acc
      else toString16_digits fuel' (n / 16) (String (hexDigit (n mod 16)) acc)
  end.

(** [n.toString(16)] *)
Definition toString16 (n : Z) : string :=
  if n <? 0 then String "-"%char (toString16_digits 14 (- n) "")
  else toString16_digits 14 n "".

(** [while (hex.length < 6) { hex = '0' + hex; }] *)
Fixpoint padHex (fuel : nat) (hex : string) : string :=
  match fuel with
  | O => hex
  | S fuel' =>
      if (Z.of_nat (String.length hex) <? 6) then padHex fuel' (String "0"%char hex)
      else hex
  end.

Definition rgbNumberToHex (rgbNumber : Z) : string :=
  let hex := toString16 rgbNumber in
  let hex := padHex 6 hex in
  String "#"%char hex.

(** Value of one hexadecimal digit, of either case. *)
Definition hexValue (c : ascii) : option Z :=
  let n := Z.of_N (N_of_ascii c) in
  if (48 <=? n) && (n <=? 57) then Some (n - 48)
  else if (97 <=? n) && (n <=? 102) then Some (n - 87)
  else if (65 <=? n) && (n <=? 70) then Some (n - 55)
  else None.

Fixpoint parseHexDigits (s : string) (acc : Z) : option Z :=
  match s with
  | EmptyString => Some acc
  | String c s' =>
      match hexValue c with
      | Some d => parseHexDigits s' (16 * acc + d)
      | None => None
      end
  end.

(** ** Colours *)

(** Modelled from the spec: the colour object of the [spectra] package,
    an RGB value (a 24-bit integer) with derived views.  Its hex view is
    the six-digit lower-case code; the script itself rebuilds that code
    with [rgbNumberToHex (color.rgbNumber ())] in [printColor]. *)
Record Color : Type := mkColor { rgbNumber : Z }.

Definition hex (c : Color) : string := rgbNumberToHex (rgbNumber c).

(** The string a colour converts to when it is used as a property key
    ([baseColorsData[color]], whose keys are [color.hex ()]) or compared
    by the default order of [Array.prototype.sort]. *)
Definition toString (c : Color) : string := hex c.

(** Modelled from the spec: [Spectra (code)] on a [#rrggbb] code; any other
    string throws. *)
Definition Spectra (code : string) : js Color :=
  match code with
  | String "#"%char digits =>
      if (String.length digits =? 6)%nat then
        match parseHexDigits digits 0 with
        | Some n => Ret (mkColor n)
        | None => Throw "Spectra: invalid colour"
        end
      else Throw "Spectra: invalid colour"
  | _ => Throw "Spectra: invalid colour"
  end.

Definition wfColor (c : Color) : Prop := 0 <= rgbNumber c < 16777216.

Definition black : Color := mkColor 0.
Definition white : Color := mkColor 16777215.

(** ** The colour mathematics *)

Record Lab : Type := mkLab { L : Q; A : Q; B : Q }.

Record ColorMath : Type := {
  labObject : Color -> Lab;            (* color.labObject () *)
  getDeltaE00 : Lab -> Lab -> Q;       (* DeltaE.getDeltaE00 *)
  luma : Color -> Q;                   (* color.luma () *)
  Contrast_hex : string -> string -> Q (* Contrast.hex *)
}.

(** ** Helpers of the script *)

Definition toLab (cm : ColorMath) (color : Color) : Lab :=
  let result := labObject cm color in
  {| L := L result; A := A result; B := B result |}.

Record Ref : Type := { value : Q; margin : Q }.

Definition between (v minimum maximum : Q) (ref : option Ref) : bool :=
  let '(low, high) :=
    match ref with
    | Some r =>
        let refValue := value r in
        let margin := (margin r / 100)%Q in
        let low := (refValue - refValue * margin)%Q in
        let low := if Qltb low minimum then minimum else low in
        let high := (refValue + refValue * margin)%Q in
        let high := if Qltb maximum high then maximum else high in
        (low, high)
    | None => (minimum, maximum)
    end in
  Qltb low v && Qltb v high.

Definition tooClose (cm : ColorMath) (currentRGBNumber : Z) (barrierColor : Color)
  : js bool :=
  do color <- Spectra (rgbNumberToHex currentRGBNumber);
  let deltaE := getDeltaE00 cm (toLab cm color) (toLab cm barrierColor) in
  Ret (Qltb deltaE 2).

(** ** Sorting and the statistics of [mathjs] *)

Section Sorting.
Context {T : Type} (leb : T -> T -> bool).

Fixpoint insertSorted (x : T) (l : list T) : list T :=
  match l with
  | [] => [x]
  | y :: l' => if leb x y then x :: l else y :: insertSorted x l'
  end.

Definition sortBy (l : list T) : list T := fold_right insertSorted [] l.
End Sorting.

(** [arr.sort ()] on colours: the default order compares the elements as
    strings, code unit by code unit.  Colours with the same string are the
    same value here, so the sorting algorithm of the engine does not show. *)
Definition Array_sort (arr : list Color) : list Color :=
  sortBy (fun a b => String.leb (toString a) (toString b)) arr.

(** [math.median]: the middle of the sorted values, the mean of the two
    middles for an even count; throws on an empty array. *)
Definition math_median (values : list Q) : js Q :=
  match values with
  | [] => Throw "Cannot calculate median of an empty array"
  | _ :: _ =>
      let sorted := sortBy Qle_bool values in
      let n := length values in
      if Nat.even n
      then Ret ((nth (n / 2 - 1)%nat sorted 0 + nth (n / 2)%nat sorted 0) / 2)%Q
      else Ret (nth ((n - 1) / 2)%nat sorted 0%Q)
  end.

(** [math.min] and [math.max] of an array; both throw on an empty one. *)
Definition math_min (values : list Q) : js Q :=
  match values with
  | [] => Throw "Cannot calculate min of an empty array"
  | x :: xs => Ret (fold_left (fun m v => if Qltb v m then v else m) xs x)
  end.

Definition math_max (values : list Q) : js Q :=
  match values with
  | [] => Throw "Cannot calculate max of an empty array"
  | x :: xs => Ret (fold_left (fun m v => if Qltb m v then v else m) xs x)
  end.

(** [arr.indexOf (x)] on numbers: the first position holding [x], or -1. *)
Fixpoint indexOf (arr : list Q) (x : Q) : Z :=
  match arr with
  | [] => -1
  | y :: arr' => if Qeq_bool y x then 0 else
                   let i := indexOf arr' x in if i <? 0 then -1 else i + 1
  end.

(** ** Top-level state of the script *)

Record Trackers : Type := {
  baseColorsData : gmap string (gmap string Q);
  refMinBlackDeltaE : Q;
  refMinWhiteDeltaE : Q;
  refMinLuma : Q;
  refMaxLuma : Q
}.

Definition setData (d : gmap string (gmap string Q)) (g : Trackers) : Trackers :=
  {| baseColorsData := d; refMinBlackDeltaE := refMinBlackDeltaE g;
     refMinWhiteDeltaE := refMinWhiteDeltaE g; refMinLuma := refMinLuma g;
     refMaxLuma := refMaxLuma g |}.
Definition setMinBlackDeltaE (v : Q) (g : Trackers) : Trackers :=
  {| baseColorsData := baseColorsData g; refMinBlackDeltaE := v;
     refMinWhiteDeltaE := refMinWhiteDeltaE g; refMinLuma := refMinLuma g;
     refMaxLuma := refMaxLuma g |}.
Definition setMinWhiteDeltaE (v : Q) (g : Trackers) : Trackers :=
  {| baseColorsData := baseColorsData g; refMinBlackDeltaE := refMinBlackDeltaE g;
     refMinWhiteDeltaE := v; refMinLuma := refMinLuma g;
     refMaxLuma := refMaxLuma g |}.
Definition setMinLuma (v : Q) (g : Trackers) : Trackers :=
  {| baseColorsData := baseColorsData g; refMinBlackDeltaE := refMinBlackDeltaE g;
     refMinWhiteDeltaE := refMinWhiteDeltaE g; refMinLuma := v;
     refMaxLuma := refMaxLuma g |}.
Definition setMaxLuma (v : Q) (g : Trackers) : Trackers :=
  {| baseColorsData := baseColorsData g; refMinBlackDeltaE := refMinBlackDeltaE g;
     refMinWhiteDeltaE := refMinWhiteDeltaE g; refMinLuma := refMinLuma g;
     refMaxLuma := v |}.

(** The callback of [loadColorsFile (baseFile, ...)]:
    [baseColorsData[color.hex ()] = {}] for every base colour. *)
Definition registerBaseColors (baseColors : list Color) : gmap string (gmap string Q) :=
  fold_left (fun data color => <[hex color := ∅]> data) baseColors ∅.

Definition initialTrackers (baseColors : list Color) : Trackers :=
  {| baseColorsData := registerBaseColors baseColors;
     refMinBlackDeltaE := 100; refMinWhiteDeltaE := 100;
     refMinLuma := 255; refMaxLuma := 0 |}.

(** A [map] whose callback changes the top-level state. *)
Fixpoint mapState {S X Y : Type} (f : X -> S -> js (Y * S)) (l : list X) (s : S)
  : js (list Y * S) :=
  match l with
  | [] => Ret ([], s)
  | x :: xs =>
      do '(y, s1) <- f x s;
      do '(ys, s2) <- mapState f xs s1;
      Ret (y :: ys, s2)
  end.

Definition process (metric : string) (measureFn : Color -> Q)
    (updateRelatedFn : option (Q -> Trackers -> Trackers))
    (color : Color) (g : Trackers) : js (Q * Trackers) :=
  let result := measureFn color in
  let colorHex := hex color in
  let g :=
    if negb (String.eqb colorHex "#000000") && negb (String.eqb colorHex "#ffffff")
    then match updateRelatedFn with Some update => update result g | None => g end
    else g in
  match baseColorsData g !! toString color with
  | Some row =>
      Ret (result, setData (<[toString color := <[metric := result]> row]> (baseColorsData g)) g)
  | None => Throw "TypeError: cannot set a property of undefined"
  end.

Definition calcMedian (baseColors : list Color)
    (processFn : Color -> Trackers -> js (Q * Trackers)) (g : Trackers)
  : js (Q * Trackers) :=
  do '(values, g') <- mapState processFn baseColors g;
  do m <- math_median values;
  Ret (m, g').

Definition blackLab (cm : ColorMath) : Lab := toLab cm black.
Definition whiteLab (cm : ColorMath) : Lab := toLab cm white.

Definition updateMinBlackDeltaE (v : Q) (g : Trackers) : Trackers :=
  if Qltb v (refMinBlackDeltaE g) then setMinBlackDeltaE v g else g.

Definition updateMinWhiteDeltaE (v : Q) (g : Trackers) : Trackers :=
  if Qltb v (refMinWhiteDeltaE g) then setMinWhiteDeltaE v g else g.

Definition updateLuma (v : Q) (g : Trackers) : Trackers :=
  let g := if Qltb v (refMinLuma g) then setMinLuma v g else g in
  if Qltb (refMaxLuma g) v then setMaxLuma v g else g.

Record Stats : Type := {
  trackers : Trackers;
  refBlackDeltaE : Q;
  refWhiteDeltaE : Q;
  refDeltaE : Q;
  refLuma : Q
}.

(** Lines 75 to 108: the statistics of the base colours, in script order. *)
Definition statistics (cm : ColorMath) (baseColors : list Color) : js Stats :=
  let g := initialTrackers baseColors in
  do '(mBlack, g) <-
    calcMedian baseColors
      (process "blackDeltaE" (fun color => getDeltaE00 cm (toLab cm color) (blackLab cm))
         (Some updateMinBlackDeltaE)) g;
  do '(mWhite, g) <-
    calcMedian baseColors
      (process "whiteDeltaE" (fun color => getDeltaE00 cm (toLab cm color) (whiteLab cm))
         (Some updateMinWhiteDeltaE)) g;
  do medians <-
    mapM (fun color =>
            math_median (map (fun baseColor =>
                                getDeltaE00 cm (toLab cm color) (toLab cm baseColor))
                             baseColors))
         baseColors;
  do mDelta <- math_median medians;
  do '(mLuma, g) <-
    calcMedian baseColors (process "luma" (fun color => luma cm color) (Some updateLuma)) g;
  Ret {| trackers := g; refBlackDeltaE := mBlack; refWhiteDeltaE := mWhite;
         refDeltaE := mDelta; refLuma := mLuma |}.

(** ** The candidate analyzer *)

Definition analyze (cm : ColorMath) (g : Trackers) (rgbNumber : Z) : js (option Color) :=
  do color <- Spectra (rgbNumberToHex rgbNumber);
  let colorLab := toLab cm color in
  let colorHex := hex color in
  let whiteContrast := Contrast_hex cm colorHex "#ffffff" in
  if negb (between whiteContrast 3 21 None) then Ret None else
  let blackContrast := Contrast_hex cm colorHex "#000000" in
  if negb (between blackContrast 3 21 None) then Ret None else
  let whiteDeltaE := getDeltaE00 cm colorLab (whiteLab cm) in
  if negb (between whiteDeltaE (refMinWhiteDeltaE g) 100 None) then Ret None else
  let blackDeltaE := getDeltaE00 cm colorLab (blackLab cm) in
  if negb (between blackDeltaE (refMinBlackDeltaE g) 100 None) then Ret None else
  if negb (between (luma cm color) (refMinLuma g) (refMaxLuma g) None) then Ret None else
  Ret (Some color).

(** [threshold || refDeltaE]: zero and [undefined] are falsy. *)
Definition orDefault (threshold : option Q) (refDeltaE : Q) : Q :=
  match threshold with
  | Some t => if Qeq_bool t 0 then refDeltaE else t
  | None => refDeltaE
  end.

Definition hasGoodDeltaAll (cm : ColorMath) (refDeltaE : Q)
    (color : Color) (arr : list Color) (threshold : option Q) : bool :=
  let colorLab := toLab cm color in
  negb (existsb (fun otherColor =>
                   Qltb (getDeltaE00 cm colorLab (toLab cm otherColor))
                        (orDefault threshold refDeltaE))
                arr).

(** ** Round 1: the space sampler *)

(** [classified] is the array [runAnalyzer] fills.  [analyzed] is a ghost
    log of the numbers handed to [analyze], in call order; the script does
    not keep it. *)
Record Sampling : Type := {
  classified : list Color;
  analyzed : list Z
}.

(** [Optional.ofNullable (analyze (n)).ifPresent (select (classified))] *)
Definition analyzeInto (cm : ColorMath) (g : Trackers) (n : Z) (s : Sampling)
  : js Sampling :=
  do r <- analyze cm g n;
  Ret {| classified := match r with
                       | Some color => classified s ++ [color]
                       | None => classified s
                       end;
         analyzed := analyzed s ++ [n] |}.

(** [for (var j = ...; j < samples; j++)], with [fuel] iterations left. *)
Fixpoint expand (cm : ColorMath) (g : Trackers) (fuel : nat) (j middle : Z)
    (start : Color) (s : Sampling) : js Sampling :=
  match fuel with
  | O => Ret s
  | S fuel' =>
      do close <- tooClose cm (middle - j) start;
      if close then Ret s else
      do s <- analyzeInto cm g (middle + j) s;
      do s <- analyzeInto cm g (middle - j) s;
      expand cm g fuel' (j + 1) middle start s
  end.

Definition samplesOf (start end_ : Color) : Z :=
  Math_round (inject_Z (rgbNumber end_ - rgbNumber start) / 2)%Q.

(** One turn of the outer loop, for the pair [colors[i]], [colors[i + 1]]. *)
Definition samplePair (cm : ColorMath) (g : Trackers) (start end_ : Color)
    (s : Sampling) : js Sampling :=
  let samples := samplesOf start end_ in
  let middle := rgbNumber start + samples in
  do s <- analyzeInto cm g middle s;
  expand cm g (Z.to_nat (samples - 1)) 1 middle start s.

Fixpoint samplePairs (cm : ColorMath) (g : Trackers) (colors : list Color)
    (s : Sampling) : js Sampling :=
  match colors with
  | start :: ((end_ :: _) as rest) =>
      do s <- samplePair cm g start end_ s;
      samplePairs cm g rest s
  | _ => Ret s
  end.

Definition withSentinels (baseColors : list Color) : list Color :=
  match baseColors with
  | [] => []
  | first :: _ =>
      let colors :=
        if negb (String.eqb (hex first) "#000000") then black :: baseColors
        else baseColors in
      if negb (String.eqb (hex (List.last colors black)) "#ffffff") then colors ++ [white]
      else colors
  end.

Definition runAnalyzerTraced (cm : ColorMath) (g : Trackers) (baseColors : list Color)
  : js Sampling :=
  samplePairs cm g (withSentinels baseColors) {| classified := []; analyzed := [] |}.

Definition runAnalyzer (cm : ColorMath) (g : Trackers) (baseColors : list Color)
  : js (list Color) :=
  do s <- runAnalyzerTraced cm g baseColors;
  Ret (classified s).

(** ** Rounds 2 and 3: the adaptive threshold and the consolidator *)

Definition adjustDelta (cm : ColorMath) (source ref : list Color) : js Q :=
  do mins <-
    mapM (fun color =>
            let colorLab := toLab cm color in
            math_min (map (fun refColor => getDeltaE00 cm colorLab (toLab cm refColor)) ref))
         source;
  math_median mins.

Definition runRound (cm : ColorMath) (source ref : list Color)
    (callback : list Color -> list Color -> Q -> list Color -> js (list Color))
  : js (list Color) :=
  let selected := [] in
  do refDelta <- adjustDelta cm source ref;
  callback source ref refDelta selected.

(** The first loop of [consolidate], [i] going up by two: [arr] is what is
    left from index [i] on, [group] and [groups] are the loop's variables.
    It returns both as the loop leaves them. *)
Fixpoint groupPairs (cm : ColorMath) (refDelta : Q) (arr : list Color)
    (group : list Color) (groups : list (list Color))
  : list Color * list (list Color) :=
  match arr with
  | [] => (group, groups)
  | [color] => (group ++ [color], groups)
  | color :: nextColor :: rest =>
      let group := group ++ [color] in
      let delta := getDeltaE00 cm (toLab cm color) (toLab cm nextColor) in
      let '(group, groups) :=
        if Qltb refDelta delta then ([], groups ++ [group]) else (group, groups) in
      groupPairs cm refDelta rest (group ++ [nextColor]) groups
  end.

(** The body of the second loop: the member of [group] whose median
    Delta E to [ref] is largest, the first one on a tie.  [indexOf] finds
    the maximum, which is one of [deltas]; the last case is what reading
    [group[-1]] would give. *)
Definition representative (cm : ColorMath) (ref group : list Color) : js Color :=
  do deltas <-
    mapM (fun color =>
            let colorLab := toLab cm color in
            math_median (map (fun c => getDeltaE00 cm colorLab (toLab cm c)) ref))
         group;
  do max <- math_max deltas;
  match nth_error group (Z.to_nat (indexOf deltas max)) with
  | Some color => if indexOf deltas max <? 0 then Throw "undefined representative"
                  else Ret color
  | None => Throw "undefined representative"
  end.

Definition consolidate (cm : ColorMath) (arr ref : list Color) (refDelta : Q)
  : js (list Color) :=
  let arr := Array_sort arr in
  let '(_, groups) := groupPairs cm refDelta arr [] [] in
  mapM (representative cm ref) groups.

(** The callback of the second round (lines 146 to 156). *)
Definition secondRound (cm : ColorMath) (st : Stats)
    (source ref : list Color) (refDelta : Q) (selected : list Color)
  : js (list Color) :=
  let raw :=
    List.filter (fun color => hasGoodDeltaAll cm (refDeltaE st) color ref (Some refDelta))
           source in
  do chosen <- consolidate cm raw ref 49;
  Ret (selected ++ chosen).

(** The callback of the third round (lines 164 to 182).  [classified] is
    the result of the second round.  In [consolidate (tmp, tmp, 5)] the
    array sorted in place is also the reference. *)
Fixpoint thirdRoundRaw (cm : ColorMath) (st : Stats) (baseColors classified : list Color)
    (refBaseDelta refDelta : Q) (ref : list Color) (raw : list Color)
  : js (list Color) :=
  match ref with
  | [] => Ret raw
  | candidate :: ref' =>
      do refColor <- analyze cm (trackers st) (rgbNumber candidate);
      let raw :=
        match refColor with
        | None => raw
        | Some refColor =>
            if negb (hasGoodDeltaAll cm (refDeltaE st) refColor baseColors (Some refBaseDelta))
            then raw
            else if negb (hasGoodDeltaAll cm (refDeltaE st) refColor classified (Some refDelta))
                 then raw
                 else raw ++ [refColor]
        end in
      thirdRoundRaw cm st baseColors classified refBaseDelta refDelta ref' raw
  end.

Definition thirdRound (cm : ColorMath) (st : Stats) (baseColors classified : list Color)
    (refBaseDelta : Q) (source ref : list Color) (refDelta : Q) (selected : list Color)
  : js (list Color) :=
  do raw <- thirdRoundRaw cm st baseColors classified refBaseDelta refDelta ref [];
  do tmp <- consolidate cm raw baseColors 5;
  do chosen <- consolidate cm tmp (Array_sort tmp) 5;
  Ret (selected ++ chosen).

(** ** The cache *)

(** Modelled from the spec: a cache artifact is a JSON array of objects
    that hold a [color] field, a hex code from which [Spectra] rebuilds the
    colour.  A file is kept as the array it parses to. *)
Record CacheEntry : Type := { color : string }.

Definition JSON_stringify (result : list Color) : list CacheEntry :=
  map (fun c => {| color := hex c |}) result.

Record World : Type := {
  files : gmap string (list CacheEntry);
  logged : list string
}.

Definition log_info (line : string) (w : World) : World :=
  {| files := files w; logged := logged w ++ [line] |}.

Definition writeFileSync (path : string) (content : list CacheEntry) (w : World) : World :=
  {| files := <[path := content]> (files w); logged := logged w |}.

Definition cachePathOf (id : string) : string := ("./cache-" ++ id ++ ".json")%string.

(** [callback.apply (null, args)] is [callback], already given [args]; it
    may read and change the world. *)
Definition memoize (id : string) (callback : World -> js (list Color * World))
    (w : World) : js (list Color * World) :=
  let cachePath := cachePathOf id in
  match files w !! cachePath with
  | Some loaded =>
      do result <- mapM (fun entry => Spectra (color entry)) loaded;
      Ret (result, log_info ("Results loaded from cache: " ++ cachePath)%string w)
  | None =>
      do '(result, w) <- callback w;
      Ret (result, writeFileSync cachePath (JSON_stringify result) w)
  end.

(** ** Stand-ins for the colour mathematics

    A small instance of [ColorMath] on which the definitions above
    evaluate: luma is the weighted channel sum, the Lab triple keeps the
    luma as lightness and two channel differences, the distance is the sum
    of the coordinate gaps, and the contrast ratio is the WCAG quotient on
    the luma taken as luminance.  The distance of a colour to itself is 0
    and the contrast of black on white is 21, as with the real packages. *)

Definition channel (c : Color) (i : Z) : Z := (rgbNumber c / 256 ^ i) mod 256.

Definition demoLuma (c : Color) : Q :=
  ((2126 # 10000) * inject_Z (channel c 2) + (7152 # 10000) * inject_Z (channel c 1)
   + (722 # 10000) * inject_Z (channel c 0))%Q.

Definition demoLab (c : Color) : Lab :=
  {| L := (demoLuma c * (100 # 255))%Q;
     A := inject_Z (channel c 2 - channel c 1);
     B := inject_Z (channel c 1 - channel c 0) |}.

Definition demoDeltaE (x y : Lab) : Q :=
  ((Qabs (L x - L y) + Qabs (A x - A y) / 4 + Qabs (B x - B y) / 4))%Q.

Definition demoContrast (a b : string) : Q :=
  match Spectra a, Spectra b with
  | Ret ca, Ret cb =>
      let la := (demoLuma ca / 255 + (5 # 100))%Q in
      let lb := (demoLuma cb / 255 + (5 # 100))%Q in
      if Qle_bool la lb then (lb / la)%Q else (la / lb)%Q
  | _, _ => 1%Q
  end.

Definition demoMath : ColorMath :=
  {| labObject := demoLab; getDeltaE00 := demoDeltaE;
     luma := demoLuma; Contrast_hex := demoContrast |}.

(** ** Reference definitions for the statements

    These are not in the script: they say, in the words of the design
    notes, what a function is compared with. *)

(** The six fixed digits of a 24-bit number, as a reference for
    [rgbNumberToHex]. *)
Fixpoint fixedHex (k : nat) (n : Z) (acc : string) : string :=
  match k with
  | O => acc
  | S k' => fixedHex k' (n / 16) (String (hexDigit (n mod 16)) acc)
  end.

(** The five checks of the analyzer on closed bands. *)
Definition inClosedBand (v low high : Q) : bool := Qle_bool low v && Qle_bool v high.

Definition closedBandChecks (cm : ColorMath) (g : Trackers) (color : Color) : bool :=
  inClosedBand (Contrast_hex cm (hex color) "#ffffff") 3 21
  && inClosedBand (Contrast_hex cm (hex color) "#000000") 3 21
  && inClosedBand (getDeltaE00 cm (toLab cm color) (whiteLab cm)) (refMinWhiteDeltaE g) 100
  && inClosedBand (getDeltaE00 cm (toLab cm color) (blackLab cm)) (refMinBlackDeltaE g) 100
  && inClosedBand (luma cm color) (refMinLuma g) (refMaxLuma g).

(** The colours the analyzer accepts among the numbers [ns], in order. *)
Definition accepted (cm : ColorMath) (g : Trackers) (ns : list Z) : list Color :=
  flat_map (fun n => match analyze cm g n with Ret (Some c) => [c] | _ => [] end) ns.

(** The offsets [j], [j + 1], ..., [n] of them. *)
Definition offsetsFrom (j : Z) (n : nat) : list Z :=
  map (fun i => j + Z.of_nat i) (seq 0 n).

(** The two numbers probed at each offset, upper one first. *)
Definition probesAt (middle : Z) (offsets : list Z) : list Z :=
  flat_map (fun j => [middle + j; middle - j]) offsets.

(** The test of [tooClose] on the number [middle - j]. *)
Definition closeAt (cm : ColorMath) (middle : Z) (start : Color) (j : Z) : bool :=
  Qltb (getDeltaE00 cm (toLab cm (mkColor (middle - j))) (toLab cm start)) 2.

(** Cutting a list into runs one element at a time: the run is closed
    after the element of index [i] when [cut i x y] holds of it and its
    successor.  It returns the open run and the closed ones. *)
Fixpoint splitRuns (cut : nat -> Color -> Color -> bool) (i : nat) (l : list Color)
    (group : list Color) (groups : list (list Color))
  : list Color * list (list Color) :=
  match l with
  | [] => (group, groups)
  | x :: rest =>
      match rest with
      | [] => (group ++ [x], groups)
      | y :: _ =>
          if cut i x y then splitRuns cut (S i) rest [] (groups ++ [group ++ [x]])
          else splitRuns cut (S i) rest (group ++ [x]) groups
      end
  end.

(** The cut of [consolidate]: inside the pairs that start at an even
    index, when the two colours are further apart than [refDelta]. *)
Definition pairCut (cm : ColorMath) (refDelta : Q) (i : nat) (x y : Color) : bool :=
  Nat.even i && Qltb refDelta (getDeltaE00 cm (toLab cm x) (toLab cm y)).

(** A cut between every two neighbours that are further apart than
    [refDelta]. *)
Definition neighbourCut (cm : ColorMath) (refDelta : Q) (i : nat) (x y : Color) : bool :=
  Qltb refDelta (getDeltaE00 cm (toLab cm x) (toLab cm y)).

Definition isMinimumOf (values : list Q) (m : Q) : Prop :=
  In m values /\ Forall (fun v => (m <= v)%Q) values.

Definition isMaximumOf (values : list Q) (m : Q) : Prop :=
  In m values /\ Forall (fun v => (v <= m)%Q) values.

Definition isMedianOf (values : list Q) (m : Q) : Prop :=
  exists sorted : list Q,
    Permutation values sorted /\ Sorted Qle sorted /\
    let n := length values in
    if Nat.even n
    then m = ((nth (n / 2 - 1)%nat sorted 0 + nth (n / 2)%nat sorted 0) / 2)%Q
    else m = nth ((n - 1) / 2)%nat sorted 0%Q.

(** A tracker that started at [init] and took every smaller value. *)
Definition isRunningMin (init : Q) (values : list Q) (m : Q) : Prop :=
  (m <= init)%Q /\ Forall (fun v => (m <= v)%Q) values /\ (m = init \/ In m values).

Definition isRunningMax (init : Q) (values : list Q) (m : Q) : Prop :=
  (init <= m)%Q /\ Forall (fun v => (v <= m)%Q) values /\ (m = init \/ In m values).

(** The base colours whose measures feed the trackers in [process]. *)
Definition tracked (color : Color) : bool :=
  negb (String.eqb (hex color) "#000000") && negb (String.eqb (hex color) "#ffffff").

(** The entry of [baseColorsData] for a colour code and a metric. *)
Definition cell (data : gmap string (gmap string Q)) (key metric : string) : option Q :=
  match data !! key with
  | Some row => row !! metric
  | None => None
  end.

(** What one pass of [process] over [l] leaves: in the table, and in the
    trackers. *)
Definition dataAfter (metric : string) (measureFn : Color -> Q) (l : list Color)
    (data : gmap string (gmap string Q)) : gmap string (gmap string Q) :=
  fold_left (fun data c =>
               match data !! hex c with
               | Some row => <[hex c := <[metric := measureFn c]> row]> data
               | None => data
               end) l data.

Definition trackersAfter (measureFn : Color -> Q) (update : Q -> Trackers -> Trackers)
    (l : list Color) (g : Trackers) : Trackers :=
  fold_left (fun g c => if tracked c then update (measureFn c) g else g) l g.

Definition runningMin (init : Q) (values : list Q) : Q :=
  fold_left (fun m v => if Qltb v m then v else m) values init.

Definition runningMax (init : Q) (values : list Q) : Q :=
  fold_left (fun m v => if Qltb m v then v else m) values init.

(** ** Loading a colour file *)

(** [loadColorsFile], from the array [JSON.parse] returns: the codes are
    sorted as strings, each is turned into a colour, and [callback], when
    there is one, is called on each colour in that order.  [S] is the state
    the callback changes. *)
Definition loadColorsFile {S : Type} (parsed : list string)
    (callback : option (Color -> S -> S)) (s : S) : js (list Color * S) :=
  mapState (fun e s =>
              do color <- Spectra e;
              Ret (color, match callback with Some call => call color s | None => s end))
           (sortBy String.leb parsed) s.

(** The callback of line 55: [baseColorsData[color.hex ()] = {}]. *)
Definition registerColor (color : Color) (data : gmap string (gmap string Q))
  : gmap string (gmap string Q) :=
  <[hex color := ∅]> data.
(** * Proofs *)

(** ** Hexadecimal codes: shape, round trip and order *)

Lemma fixedHex_msd (k : nat) : forall n acc,
  fixedHex (S k) n acc
  = String (hexDigit ((n / 16 ^ Z.of_nat k) mod 16)) (fixedHex k n acc).
Proof.
  induction k as [|k IH]; intros n acc.
  - simpl. now rewrite Z.div_1_r.
  - change (fixedHex (S (S k)) n acc)
      with (fixedHex (S k) (n / 16) (String (hexDigit (n mod 16)) acc)).
    rewrite IH. simpl fixedHex. f_equal. f_equal.
    rewrite Nat2Z.inj_succ, Z.pow_succ_r by lia.
    rewrite Z.div_div by lia. reflexivity.
Qed.

Lemma fixedHex_length (k : nat) : forall n acc,
  String.length (fixedHex k n acc) = (k + String.length acc)%nat.
Proof.
  induction k as [|k IH]; intros n acc; simpl; [reflexivity|].
  rewrite IH. simpl. lia.
Qed.

Lemma fixedHex_lead0 (k : nat) (n : Z) (acc : string) :
  0 <= n < 16 ^ Z.of_nat k ->
  fixedHex (S k) n acc = String "0"%char (fixedHex k n acc).
Proof.
  intros Hn. rewrite fixedHex_msd. now rewrite Z.div_small.
Qed.

Lemma toString16_digits_fixed (fuel : nat) : forall n acc k,
  0 <= n < 16 ^ Z.of_nat k -> (1 <= k <= fuel)%nat ->
  exists j, (1 <= j <= k)%nat /\ 0 <= n < 16 ^ Z.of_nat j /\
            toString16_digits fuel n acc = fixedHex j n acc.
Proof.
  induction fuel as [|fuel IH]; intros n acc k Hn Hk; [lia|].
  simpl. destruct (Z.ltb_spec n 16) as [Hlt|Hge].
  - exists 1%nat. repeat split; try lia.
    simpl. now rewrite Z.mod_small by lia.
  - destruct k as [|[|k]]; [lia| simpl in Hn; lia |].
    destruct (IH (n / 16) (String (hexDigit (n mod 16)) acc) (S k)) as (j & Hj & Hnj & Heq).
    + split; [apply Z.div_pos; lia|].
      apply Z.div_lt_upper_bound; [lia|].
      rewrite (Nat2Z.inj_succ (S k)), Z.pow_succ_r in Hn by lia. lia.
    + lia.
    + exists (S j). repeat split; try lia.
      * rewrite Nat2Z.inj_succ, Z.pow_succ_r by lia.
        assert (n / 16 < 16 ^ Z.of_nat j) by lia.
        pose proof (Z.div_mod n 16 ltac:(lia)).
        pose proof (Z.mod_pos_bound n 16 ltac:(lia)). lia.
      * exact Heq.
Qed.

(** A 24-bit number prints as its six fixed digits after the hash. *)
Lemma rgbNumberToHex_fixed (n : Z) :
  0 <= n < 16777216 -> rgbNumberToHex n = String "#"%char (fixedHex 6 n "").
Proof.
  intros Hn. unfold rgbNumberToHex, toString16.
  destruct (Z.ltb_spec n 0) as [?|_]; [lia|].
  destruct (toString16_digits_fixed 14 n "" 6) as (j & Hj & Hnj & ->);
    [simpl; lia | lia |].
  f_equal.
  assert (Hc : (j = 1 \/ j = 2 \/ j = 3 \/ j = 4 \/ j = 5 \/ j = 6)%nat) by lia.
  destruct Hc as [-> | [-> | [-> | [-> | [-> | ->]]]]];
    unfold padHex; rewrite ?fixedHex_length; simpl String.length; simpl Z.ltb; cbv iota;
    repeat (rewrite <- fixedHex_lead0 by (simpl; lia)); try reflexivity.
Qed.

Lemma hexValue_hexDigit (d : Z) : 0 <= d < 16 -> hexValue (hexDigit d) = Some d.
Proof.
  intros Hd.
  assert (Hc : d = 0 \/ d = 1 \/ d = 2 \/ d = 3 \/ d = 4 \/ d = 5 \/ d = 6 \/ d = 7 \/
               d = 8 \/ d = 9 \/ d = 10 \/ d = 11 \/ d = 12 \/ d = 13 \/ d = 14 \/ d = 15)
    by lia.
  repeat (destruct Hc as [-> | Hc]; [reflexivity|]). now subst.
Qed.

Lemma hexDigit_compare (x y : Z) :
  0 <= x < 16 -> 0 <= y < 16 -> Ascii.compare (hexDigit x) (hexDigit y) = (x ?= y).
Proof.
  intros Hx Hy.
  assert (Hcx : x = 0 \/ x = 1 \/ x = 2 \/ x = 3 \/ x = 4 \/ x = 5 \/ x = 6 \/ x = 7 \/
               x = 8 \/ x = 9 \/ x = 10 \/ x = 11 \/ x = 12 \/ x = 13 \/ x = 14 \/ x = 15)
    by lia.
  assert (Hcy : y = 0 \/ y = 1 \/ y = 2 \/ y = 3 \/ y = 4 \/ y = 5 \/ y = 6 \/ y = 7 \/
               y = 8 \/ y = 9 \/ y = 10 \/ y = 11 \/ y = 12 \/ y = 13 \/ y = 14 \/ y = 15)
    by lia.
  clear Hx Hy.
  repeat (destruct Hcx as [-> | Hcx]);
    repeat (destruct Hcy as [-> | Hcy]); subst; reflexivity.
Qed.

Lemma pow16_split (k : nat) (n : Z) :
  n mod 16 ^ Z.of_nat (S k)
  = n mod 16 ^ Z.of_nat k + 16 ^ Z.of_nat k * ((n / 16 ^ Z.of_nat k) mod 16).
Proof.
  rewrite Nat2Z.inj_succ, Z.pow_succ_r by lia.
  rewrite (Z.mul_comm 16). apply Z.rem_mul_r; lia.
Qed.

Lemma parseHexDigits_fixed (k : nat) : forall n acc,
  parseHexDigits (fixedHex k n "") acc
  = Some (acc * 16 ^ Z.of_nat k + n mod 16 ^ Z.of_nat k).
Proof.
  induction k as [|k IH]; intros n acc.
  - simpl. rewrite Z.mod_1_r. f_equal. lia.
  - rewrite fixedHex_msd. cbn [parseHexDigits].
    rewrite hexValue_hexDigit by (apply Z.mod_pos_bound; lia).
    rewrite IH, pow16_split. f_equal.
    rewrite Nat2Z.inj_succ, Z.pow_succ_r by lia. ring.
Qed.

(** Round trip: parsing the code of a 24-bit number gives the number. *)
Lemma Spectra_rgbNumberToHex (n : Z) :
  0 <= n < 16777216 -> Spectra (rgbNumberToHex n) = Ret (mkColor n).
Proof.
  intros Hn. rewrite rgbNumberToHex_fixed by exact Hn.
  unfold Spectra. rewrite fixedHex_length. cbn [String.length Nat.add Nat.eqb].
  rewrite parseHexDigits_fixed. change (16 ^ Z.of_nat 6) with 16777216.
  now rewrite Z.mod_small by lia.
Qed.

Lemma fixedHex_compare (k : nat) : forall a b,
  String.compare (fixedHex k a "") (fixedHex k b "")
  = (a mod 16 ^ Z.of_nat k ?= b mod 16 ^ Z.of_nat k).
Proof.
  induction k as [|k IH]; intros a b.
  - simpl. now rewrite !Z.mod_1_r.
  - rewrite !fixedHex_msd. cbn [String.compare].
    assert (Hp : 0 < 16 ^ Z.of_nat k) by (apply Z.pow_pos_nonneg; lia).
    pose proof (Z.mod_pos_bound (a / 16 ^ Z.of_nat k) 16 ltac:(lia)) as Ha.
    pose proof (Z.mod_pos_bound (b / 16 ^ Z.of_nat k) 16 ltac:(lia)) as Hb.
    pose proof (Z.mod_pos_bound a (16 ^ Z.of_nat k) Hp) as Ha'.
    pose proof (Z.mod_pos_bound b (16 ^ Z.of_nat k) Hp) as Hb'.
    rewrite hexDigit_compare, IH, !pow16_split by assumption.
    destruct (Z.compare_spec ((a / 16 ^ Z.of_nat k) mod 16) ((b / 16 ^ Z.of_nat k) mod 16))
      as [He|Hl|Hg].
    + rewrite He. destruct (Z.compare_spec (a mod 16 ^ Z.of_nat k) (b mod 16 ^ Z.of_nat k));
        symmetry; [apply Z.compare_eq_iff | apply Z.compare_lt_iff | apply Z.compare_gt_iff]; nia.
    + symmetry. apply Z.compare_lt_iff. nia.
    + symmetry. apply Z.compare_gt_iff. nia.
Qed.

(** The order of the codes is the order of the numbers. *)
Lemma toString_compare (a b : Color) :
  wfColor a -> wfColor b ->
  String.compare (toString a) (toString b) = (rgbNumber a ?= rgbNumber b).
Proof.
  unfold wfColor, toString, hex. intros Ha Hb.
  rewrite !rgbNumberToHex_fixed by assumption. cbn [String.compare].
  change (Ascii.compare "#" "#") with Eq. cbv iota.
  rewrite fixedHex_compare. change (16 ^ Z.of_nat 6) with 16777216.
  now rewrite !Z.mod_small by lia.
Qed.

Lemma toString_leb (a b : Color) :
  wfColor a -> wfColor b ->
  String.leb (toString a) (toString b) = (rgbNumber a <=? rgbNumber b).
Proof.
  intros Ha Hb. unfold String.leb. rewrite toString_compare by assumption.
  unfold Z.leb. now destruct (rgbNumber a ?= rgbNumber b).
Qed.

Lemma hex_inj (a b : Color) : wfColor a -> wfColor b -> hex a = hex b -> a = b.
Proof.
  intros Ha Hb Heq.
  assert (Hc : String.compare (toString a) (toString b) = Eq).
  { unfold toString. rewrite Heq. clear. induction (hex b) as [|c s IH]; simpl; auto.
    assert (Ascii.compare c c = Eq) as ->; [|exact IH].
    unfold Ascii.compare. apply N.compare_refl. }
  rewrite toString_compare in Hc by assumption.
  apply Z.compare_eq_iff in Hc. destruct a, b; simpl in *; congruence.
Qed.


(** ** Sorting *)

Section SortingFacts.
Context {T : Type} (leb : T -> T -> bool).

Lemma insertSorted_perm (x : T) (l : list T) : Permutation (x :: l) (insertSorted leb x l).
Proof.
  induction l as [|y l IH]; simpl; [reflexivity|].
  destruct (leb x y); [reflexivity|].
  rewrite perm_swap. now apply perm_skip.
Qed.

Lemma sortBy_perm (l : list T) : Permutation l (sortBy leb l).
Proof.
  induction l as [|x l IH]; simpl; [reflexivity|].
  rewrite <- insertSorted_perm. now apply perm_skip.
Qed.

Lemma sortBy_length (l : list T) : length (sortBy leb l) = length l.
Proof. symmetry. apply Permutation_length, sortBy_perm. Qed.

Hypothesis leb_total : forall a b, leb a b = true \/ leb b a = true.

Lemma insertSorted_sorted (x : T) (l : list T) :
  Sorted (fun a b => leb a b = true) l ->
  Sorted (fun a b => leb a b = true) (insertSorted leb x l).
Proof.
  induction 1 as [|y l Hs IH Hhd]; simpl.
  - repeat constructor.
  - destruct (leb x y) eqn:Hxy.
    + repeat constructor; assumption.
    + constructor; [exact IH|].
      destruct l as [|z l]; simpl.
      * constructor. destruct (leb_total x y); congruence.
      * destruct (leb x z); constructor.
        -- destruct (leb_total x y); congruence.
        -- now inversion Hhd.
Qed.

Lemma sortBy_sorted (l : list T) : Sorted (fun a b => leb a b = true) (sortBy leb l).
Proof.
  induction l as [|x l IH]; simpl; [constructor|].
  now apply insertSorted_sorted.
Qed.
End SortingFacts.

(** ** Numbers *)

Lemma Qltb_lt (a b : Q) : Qltb a b = true <-> (a < b)%Q.
Proof.
  unfold Qltb. rewrite negb_true_iff, <- not_true_iff_false, Qle_bool_iff.
  split; [apply Qnot_le_lt | apply Qlt_not_le].
Qed.

Lemma Qltb_ge (a b : Q) : Qltb a b = false <-> (b <= a)%Q.
Proof.
  unfold Qltb. rewrite negb_false_iff. apply Qle_bool_iff.
Qed.

Lemma Math_round_half (d : Z) : Math_round (inject_Z d / 2)%Q = (d + 1) / 2.
Proof.
  unfold Math_round.
  assert (He : (inject_Z d / 2 + (1 # 2) == (d + 1) # 2)%Q).
  { unfold Qeq, Qdiv, Qmult, Qplus, Qinv, inject_Z. simpl. lia. }
  rewrite He. reflexivity.
Qed.

Lemma samplesOf_value (start end_ : Color) :
  samplesOf start end_ = (rgbNumber end_ - rgbNumber start + 1) / 2.
Proof. apply Math_round_half. Qed.

(** ** The analyzer and the sampler *)

Lemma analyze_in_range (cm : ColorMath) (g : Trackers) (n : Z) :
  0 <= n < 16777216 ->
  exists r, analyze cm g n = Ret r /\ (r = None \/ r = Some (mkColor n)).
Proof.
  intros Hn. unfold analyze. rewrite Spectra_rgbNumberToHex by exact Hn.
  cbn [bind].
  repeat match goal with
         | |- context [if ?b then _ else _] => destruct b; [eauto|]
         end.
  eauto.
Qed.

Lemma analyzeInto_in_range (cm : ColorMath) (g : Trackers) (n : Z) (s : Sampling) :
  0 <= n < 16777216 ->
  analyzeInto cm g n s
  = Ret {| classified := classified s ++ accepted cm g [n];
           analyzed := analyzed s ++ [n] |}.
Proof.
  intros Hn. unfold analyzeInto, accepted.
  destruct (analyze_in_range cm g n Hn) as (r & Hr & _).
  cbn [flat_map]. rewrite Hr. cbn [bind].
  destruct r; cbn; now rewrite ?app_nil_r.
Qed.

Lemma tooClose_in_range (cm : ColorMath) (middle j : Z) (start : Color) :
  0 <= middle - j < 16777216 ->
  tooClose cm (middle - j) start = Ret (closeAt cm middle start j).
Proof.
  intros Hn. unfold tooClose. now rewrite Spectra_rgbNumberToHex by exact Hn.
Qed.

Lemma offsetsFrom_S (j : Z) (n : nat) :
  offsetsFrom j (S n) = j :: offsetsFrom (j + 1) n.
Proof.
  unfold offsetsFrom. cbn [seq map]. rewrite Z.add_0_r. f_equal.
  rewrite <- seq_shift, map_map. apply map_ext. intros i. lia.
Qed.

Lemma accepted_app (cm : ColorMath) (g : Trackers) (xs ys : list Z) :
  accepted cm g (xs ++ ys) = accepted cm g xs ++ accepted cm g ys.
Proof. unfold accepted. apply flat_map_app. Qed.

Lemma accepted_cons (cm : ColorMath) (g : Trackers) (x : Z) (xs : list Z) :
  accepted cm g (x :: xs) = accepted cm g [x] ++ accepted cm g xs.
Proof. apply (accepted_app cm g [x] xs). Qed.

(** The inner loop: it runs [n] full turns, none of them on an offset that
    is too close to [start], and leaves early only on one that is. *)
Lemma expand_trace (cm : ColorMath) (g : Trackers) (middle : Z) (start : Color)
    (fuel : nat) : forall (j : Z) (s : Sampling),
  (forall i, j <= i < j + Z.of_nat fuel ->
             0 <= middle - i < 16777216 /\ 0 <= middle + i < 16777216) ->
  exists n : nat,
    (n <= fuel)%nat /\
    (forall i, (i < n)%nat -> closeAt cm middle start (j + Z.of_nat i) = false) /\
    ((n < fuel)%nat -> closeAt cm middle start (j + Z.of_nat n) = true) /\
    expand cm g fuel j middle start s
    = Ret {| classified := classified s ++ accepted cm g (probesAt middle (offsetsFrom j n));
             analyzed := analyzed s ++ probesAt middle (offsetsFrom j n) |}.
Proof.
  induction fuel as [|fuel IH]; intros j s Hrange.
  - exists 0%nat. repeat split; try lia.
    cbn. rewrite !app_nil_r. now destruct s.
  - assert (Hj : 0 <= middle - j < 16777216 /\ 0 <= middle + j < 16777216)
      by (apply Hrange; lia).
    cbn [expand]. rewrite tooClose_in_range by apply Hj. cbn [bind].
    destruct (closeAt cm middle start j) eqn:Hclose.
    + exists 0%nat. repeat split; try lia.
      * intros _. change (Z.of_nat 0) with 0. now rewrite Z.add_0_r.
      * cbn. rewrite !app_nil_r. now destruct s.
    + rewrite !analyzeInto_in_range by apply Hj. cbn [bind].
      rewrite analyzeInto_in_range by apply Hj. cbn [bind classified analyzed].
      destruct (IH (j + 1)
                  {| classified := (classified s ++ accepted cm g [middle + j])
                                   ++ accepted cm g [middle - j];
                     analyzed := (analyzed s ++ [middle + j]) ++ [middle - j] |})
        as (n & Hn & Hfar & Hstop & Heq).
      { intros i Hi. apply Hrange. lia. }
      exists (S n). split; [lia|]. split; [|split].
      * intros [|i] Hi; [change (Z.of_nat 0) with 0; now rewrite Z.add_0_r|].
        replace (j + Z.of_nat (S i)) with (j + 1 + Z.of_nat i) by lia.
        apply Hfar. lia.
      * intros Hlt. replace (j + Z.of_nat (S n)) with (j + 1 + Z.of_nat n) by lia.
        apply Hstop. lia.
      * rewrite Heq. cbn [classified analyzed]. rewrite offsetsFrom_S.
        cbn [probesAt flat_map app]. fold (probesAt middle (offsetsFrom (j + 1) n)).
        rewrite (accepted_cons cm g (middle + j)
                   (middle - j :: probesAt middle (offsetsFrom (j + 1) n))).
        rewrite (accepted_cons cm g (middle - j) (probesAt middle (offsetsFrom (j + 1) n))).
        rewrite <- !app_assoc. reflexivity.
Qed.

(** One pair of neighbours: the midpoint, then the offsets 1 to [n]. *)
Lemma samplePair_trace (cm : ColorMath) (g : Trackers) (start end_ : Color) (s : Sampling) :
  wfColor start -> wfColor end_ -> rgbNumber start <= rgbNumber end_ ->
  let samples := (rgbNumber end_ - rgbNumber start + 1) / 2 in
  let middle := rgbNumber start + samples in
  exists n : nat,
    Z.of_nat n <= Z.max 0 (samples - 1) /\
    (forall j, 1 <= j <= Z.of_nat n -> closeAt cm middle start j = false) /\
    (Z.of_nat n + 1 < samples -> closeAt cm middle start (Z.of_nat n + 1) = true) /\
    samplePair cm g start end_ s
    = Ret {| classified := classified s
                           ++ accepted cm g (middle :: probesAt middle (offsetsFrom 1 n));
             analyzed := analyzed s ++ middle :: probesAt middle (offsetsFrom 1 n) |}.
Proof.
  intros Hs He Hle samples middle. unfold wfColor in Hs, He.
  assert (Hsam : 0 <= samples /\ 2 * samples <= rgbNumber end_ - rgbNumber start + 1).
  { subst samples. split; [apply Z.div_pos; lia|].
    apply Z.mul_div_le. lia. }
  assert (Hmid : 0 <= middle < 16777216).
  { subst middle. destruct (Z.eq_dec (rgbNumber end_) (rgbNumber start)) as [Heq|Hne].
    - subst samples. rewrite Heq, Z.sub_diag. change ((0 + 1) / 2) with 0. lia.
    - lia. }
  unfold samplePair. rewrite samplesOf_value. fold samples. fold middle.
  rewrite analyzeInto_in_range by exact Hmid. cbn [bind].
  destruct (expand_trace cm g middle start (Z.to_nat (samples - 1)) 1
              {| classified := classified s ++ accepted cm g [middle];
                 analyzed := analyzed s ++ [middle] |})
    as (n & Hn & Hfar & Hstop & Heq).
  { intros i Hi. subst middle. lia. }
  exists n. split; [lia|]. split; [|split].
  - intros j Hj. replace j with (1 + Z.of_nat (Z.to_nat (j - 1))) by lia.
    apply Hfar. lia.
  - intros Hlt. rewrite Z.add_comm. apply Hstop. lia.
  - rewrite Heq. cbn [classified analyzed].
    rewrite (accepted_cons cm g middle (probesAt middle (offsetsFrom 1 n))), <- !app_assoc.
    reflexivity.
Qed.

Lemma between_open (v low high : Q) :
  between v low high None = true <-> (low < v)%Q /\ (v < high)%Q.
Proof.
  unfold between. now rewrite andb_true_iff, !Qltb_lt.
Qed.

Lemma half_up_parity (d : Z) : (d + 1) / 2 = d / 2 + d mod 2.
Proof.
  pose proof (Z.div_mod d 2 ltac:(lia)) as Hd.
  pose proof (Z.mod_pos_bound d 2 ltac:(lia)) as Hm.
  symmetry. apply Z.div_unique with (r := 1 - d mod 2); lia.
Qed.

(** ** The exception monad *)

Lemma mapM_Ret {X Y : Type} (f : X -> js Y) (l : list X) :
  Forall (fun x => exists y, f x = Ret y) l ->
  exists ys, mapM f l = Ret ys /\ Forall2 (fun x y => f x = Ret y) l ys.
Proof.
  induction 1 as [|x l (y & Hy) _ (ys & Hys & Hall)].
  - exists []. split; [reflexivity | constructor].
  - exists (y :: ys). cbn [mapM]. rewrite Hy. cbn [bind]. rewrite Hys. cbn [bind].
    split; [reflexivity | now constructor].
Qed.

Lemma mapM_inv {X Y : Type} (f : X -> js Y) (l : list X) : forall ys,
  mapM f l = Ret ys -> Forall2 (fun x y => f x = Ret y) l ys.
Proof.
  induction l as [|x l IH]; intros ys Heq; cbn [mapM] in Heq.
  - injection Heq as <-. constructor.
  - destruct (f x) as [y|] eqn:Hy; cbn [bind] in Heq; [|discriminate].
    destruct (mapM f l) as [ys'|] eqn:Hys; cbn [bind] in Heq; [|discriminate].
    injection Heq as <-. constructor; [exact Hy | now apply IH].
Qed.

Lemma mapM_pure {X Y : Type} (f : X -> Y) (l : list X) :
  mapM (fun x => Ret (f x)) l = Ret (map f l).
Proof.
  induction l as [|x l IH]; [reflexivity|].
  cbn [mapM bind map]. rewrite IH. reflexivity.
Qed.

(** ** Minimum, maximum, median *)

Lemma math_median_Ret (values : list Q) :
  values <> [] -> exists m, math_median values = Ret m.
Proof.
  destruct values as [|v vs]; [congruence|]. intros _. unfold math_median.
  destruct (Nat.even _); eauto.
Qed.

Lemma fold_min_spec (xs : list Q) : forall x,
  isMinimumOf (x :: xs) (fold_left (fun m v => if Qltb v m then v else m) xs x).
Proof.
  unfold isMinimumOf. induction xs as [|y xs IH]; intros x; cbn [fold_left].
  - split; [now left|]. repeat constructor. apply Qle_refl.
  - destruct (Qltb y x) eqn:Hlt.
    + destruct (IH y) as (Hin & Hall). split.
      * right. exact Hin.
      * inversion Hall as [|? ? Hy Hxs]; subst.
        constructor; [|constructor; assumption].
        apply Qltb_lt in Hlt. eapply Qle_trans; [exact Hy|]. now apply Qlt_le_weak.
    + destruct (IH x) as (Hin & Hall). split.
      * destruct Hin as [Hin|Hin]; [now left | right; now right].
      * inversion Hall as [|? ? Hx Hxs]; subst.
        constructor; [exact Hx|]. constructor; [|exact Hxs].
        apply Qltb_ge in Hlt. eapply Qle_trans; [exact Hx | exact Hlt].
Qed.

Lemma fold_max_spec (xs : list Q) : forall x,
  isMaximumOf (x :: xs) (fold_left (fun m v => if Qltb m v then v else m) xs x).
Proof.
  unfold isMaximumOf. induction xs as [|y xs IH]; intros x; cbn [fold_left].
  - split; [now left|]. repeat constructor. apply Qle_refl.
  - destruct (Qltb x y) eqn:Hlt.
    + destruct (IH y) as (Hin & Hall). split.
      * right. exact Hin.
      * inversion Hall as [|? ? Hy Hxs]; subst.
        constructor; [|constructor; assumption].
        apply Qltb_lt in Hlt. eapply Qle_trans; [|exact Hy]. now apply Qlt_le_weak.
    + destruct (IH x) as (Hin & Hall). split.
      * destruct Hin as [Hin|Hin]; [now left | right; now right].
      * inversion Hall as [|? ? Hx Hxs]; subst.
        constructor; [exact Hx|]. constructor; [|exact Hxs].
        apply Qltb_ge in Hlt. eapply Qle_trans; [exact Hlt | exact Hx].
Qed.

Lemma math_min_spec (values : list Q) :
  values <> [] -> exists m, math_min values = Ret m /\ isMinimumOf values m.
Proof.
  destruct values as [|x xs]; [congruence|]. intros _.
  eexists. split; [reflexivity | apply fold_min_spec].
Qed.

Lemma math_max_spec (values : list Q) :
  values <> [] -> exists m, math_max values = Ret m /\ isMaximumOf values m.
Proof.
  destruct values as [|x xs]; [congruence|]. intros _.
  eexists. split; [reflexivity | apply fold_max_spec].
Qed.

Lemma Qle_bool_total (a b : Q) : Qle_bool a b = true \/ Qle_bool b a = true.
Proof.
  rewrite !Qle_bool_iff. destruct (Qlt_le_dec a b) as [Hlt|Hle].
  - left. now apply Qlt_le_weak.
  - now right.
Qed.

Lemma Sorted_impl {T : Type} (R1 R2 : T -> T -> Prop) (P : T -> Prop) (l : list T) :
  (forall a b, P a -> P b -> R1 a b -> R2 a b) ->
  Forall P l -> Sorted R1 l -> Sorted R2 l.
Proof.
  intros Himp HP Hs. induction Hs as [|x l Hs IH Hhd]; [constructor|].
  inversion HP as [|? ? Hx Hl]; subst. constructor; [now apply IH|].
  destruct Hhd as [|y l Hxy]; constructor.
  inversion Hl; subst. now apply Himp.
Qed.

Lemma math_median_spec (values : list Q) :
  values <> [] -> exists m, math_median values = Ret m /\ isMedianOf values m.
Proof.
  intros Hne.
  assert (Hs : Sorted Qle (sortBy Qle_bool values)).
  { apply (Sorted_impl (fun a b => Qle_bool a b = true) Qle (fun _ => True)).
    - intros a b _ _. apply Qle_bool_iff.
    - apply Forall_forall. trivial.
    - apply sortBy_sorted, Qle_bool_total. }
  unfold isMedianOf. cbv zeta.
  assert (Hm : math_median values
               = if Nat.even (length values)
                 then Ret ((nth (length values / 2 - 1)%nat (sortBy Qle_bool values) 0
                            + nth (length values / 2)%nat (sortBy Qle_bool values) 0) / 2)%Q
                 else Ret (nth ((length values - 1) / 2)%nat (sortBy Qle_bool values) 0%Q)).
  { destruct values; [congruence | reflexivity]. }
  rewrite Hm.
  destruct (Nat.even (length values)); eexists; (split; [reflexivity|]);
    exists (sortBy Qle_bool values); (split; [apply sortBy_perm|]); (split; [exact Hs|]);
    reflexivity.
Qed.

Lemma indexOf_bound (arr : list Q) (x : Q) : -1 <= indexOf arr x < Z.of_nat (length arr).
Proof.
  induction arr as [|y arr IH]; cbn [indexOf length]; [lia|].
  destruct (Qeq_bool y x); [lia|].
  destruct (Z.ltb_spec (indexOf arr x) 0); lia.
Qed.

Lemma indexOf_found (arr : list Q) (x : Q) : In x arr -> 0 <= indexOf arr x.
Proof.
  induction arr as [|y arr IH]; intros Hin; [destruct Hin|].
  cbn [indexOf]. destruct (Qeq_bool y x) eqn:Heq; [lia|].
  destruct Hin as [->|Hin].
  - assert (Qeq_bool x x = true) by (apply Qeq_bool_iff; reflexivity). congruence.
  - specialize (IH Hin). destruct (Z.ltb_spec (indexOf arr x) 0); lia.
Qed.

(** ** The consolidator *)

Lemma String_leb_total (a b : string) : String.leb a b = true \/ String.leb b a = true.
Proof.
  unfold String.leb. rewrite (String.compare_antisym b a).
  destruct (String.compare a b); cbn; auto.
Qed.

Lemma Array_sort_perm (arr : list Color) : Permutation arr (Array_sort arr).
Proof. apply sortBy_perm. Qed.

Lemma Array_sort_sorted (arr : list Color) :
  Forall wfColor arr ->
  StronglySorted (fun a b => rgbNumber a <= rgbNumber b) (Array_sort arr).
Proof.
  intros Hwf. apply Sorted_StronglySorted.
  - intros a b c Hab Hbc. lia.
  - apply (Sorted_impl (fun a b => String.leb (toString a) (toString b) = true) _ wfColor).
    + intros a b Ha Hb Hle. rewrite toString_leb in Hle by assumption. lia.
    + eapply Permutation_Forall; [apply Array_sort_perm | exact Hwf].
    + apply sortBy_sorted. intros a b. apply String_leb_total.
Qed.

(** The loop over pairs cuts exactly where [pairCut] says. *)
Lemma groupPairs_splitRuns (cm : ColorMath) (refDelta : Q) (n : nat) :
  forall (l : list Color) (i : nat) (group : list Color) (groups : list (list Color)),
  (length l <= n)%nat -> Nat.even i = true ->
  groupPairs cm refDelta l group groups = splitRuns (pairCut cm refDelta) i l group groups.
Proof.
  induction n as [|n IH]; intros l i group groups Hlen Hev.
  - destruct l; [reflexivity | cbn in Hlen; lia].
  - destruct l as [|x [|y rest]]; [reflexivity | reflexivity |].
    assert (Hodd : Nat.even (S i) = false).
    { rewrite Nat.even_succ, <- Nat.negb_even, Hev. reflexivity. }
    assert (Hev2 : Nat.even (S (S i)) = true) by (cbn; exact Hev).
    cbn [groupPairs splitRuns]. unfold pairCut at 1. rewrite Hev. cbn [andb].
    destruct (Qltb refDelta _).
    + destruct rest as [|z rest]; [reflexivity|].
      unfold pairCut at 1. rewrite Hodd. cbn [andb].
      apply IH; [cbn in Hlen |- *; lia | exact Hev2].
    + destruct rest as [|z rest]; [reflexivity|].
      unfold pairCut at 1. rewrite Hodd. cbn [andb].
      apply IH; [cbn in Hlen |- *; lia | exact Hev2].
Qed.

Lemma splitRuns_cons2 (cut : nat -> Color -> Color -> bool) (i : nat) (x y : Color)
    (rest group : list Color) (groups : list (list Color)) :
  splitRuns cut i (x :: y :: rest) group groups
  = if cut i x y then splitRuns cut (S i) (y :: rest) [] (groups ++ [group ++ [x]])
    else splitRuns cut (S i) (y :: rest) (group ++ [x]) groups.
Proof. reflexivity. Qed.

(** Whatever the cut, the runs are the list, piece after piece, and no
    closed run is empty. *)
Lemma splitRuns_partition (cut : nat -> Color -> Color -> bool) (l : list Color) :
  forall i group groups open closed,
  splitRuns cut i l group groups = (open, closed) ->
  concat closed ++ open = concat groups ++ group ++ l /\
  (Forall (fun g => g <> []) groups -> Forall (fun g => g <> []) closed) /\
  exists more, closed = groups ++ more.
Proof.
  induction l as [|x l IH]; intros i group groups open closed Heq.
  - cbn in Heq. injection Heq as <- <-. rewrite app_nil_r.
    repeat split; [auto|]. exists []. now rewrite app_nil_r.
  - cbn [splitRuns] in Heq. destruct l as [|y l].
    + injection Heq as <- <-. repeat split; [auto|]. exists []. now rewrite app_nil_r.
    + destruct (cut i x y).
      * apply IH in Heq. destruct Heq as (Hcat & Hne & more & Hmore).
        split; [|split].
        -- rewrite Hcat, concat_app. cbn [concat]. rewrite app_nil_r, <- !app_assoc.
           reflexivity.
        -- intros Hg. apply Hne. apply Forall_app. split; [exact Hg|].
           constructor; [|constructor]. now destruct group.
        -- exists ([group ++ [x]] ++ more). rewrite Hmore, <- app_assoc. reflexivity.
      * apply IH in Heq. destruct Heq as (Hcat & Hne & more & Hmore).
        split; [|split]; [|exact Hne | exists more; exact Hmore].
        rewrite Hcat, <- !app_assoc. reflexivity.
Qed.

(** One pair closes at most one group. *)
Lemma groupPairs_count (cm : ColorMath) (refDelta : Q) (n : nat) :
  forall (l : list Color) (group : list Color) (groups : list (list Color)),
  (length l <= n)%nat ->
  (length (snd (groupPairs cm refDelta l group groups))
   <= length groups + length l / 2)%nat.
Proof.
  induction n as [|n IH]; intros l group groups Hlen.
  - destruct l; [cbn; lia | cbn in Hlen; lia].
  - destruct l as [|x [|y rest]]; [cbn; lia | cbn; lia |].
    cbn [groupPairs].
    assert (Hhalf : (length (x :: y :: rest) / 2 = S (length rest / 2))%nat).
    { cbn [length]. change (S (S (length rest))) with (2 + length rest)%nat.
      replace (2 + length rest)%nat with (length rest + 1 * 2)%nat by lia.
      rewrite Nat.div_add by lia. lia. }
    rewrite Hhalf.
    destruct (Qltb refDelta _).
    + etransitivity; [apply IH; cbn in Hlen; lia|]. rewrite length_app. cbn. lia.
    + etransitivity; [apply IH; cbn in Hlen; lia|]. lia.
Qed.

Lemma representative_member (cm : ColorMath) (ref group : list Color) (c : Color) :
  representative cm ref group = Ret c -> In c group.
Proof.
  unfold representative.
  destruct (mapM _ group) as [deltas|]; cbn [bind]; [|discriminate].
  destruct (math_max deltas) as [m|]; cbn [bind]; [|discriminate].
  destruct (nth_error group _) as [c'|] eqn:Hnth; [|discriminate].
  destruct (_ <? 0); [discriminate|]. intros [= <-].
  eapply nth_error_In. exact Hnth.
Qed.

Lemma representative_Ret (cm : ColorMath) (ref group : list Color) :
  ref <> [] -> group <> [] -> exists c, representative cm ref group = Ret c.
Proof.
  intros Href Hgroup. unfold representative.
  destruct (mapM_Ret
              (fun color => math_median
                              (map (fun c => getDeltaE00 cm (toLab cm color) (toLab cm c)) ref))
              group) as (deltas & -> & Hall).
  { apply Forall_forall. intros color _. apply math_median_Ret.
    destruct ref; [congruence | discriminate]. }
  cbn [bind]. apply Forall2_length in Hall.
  destruct (math_max_spec deltas) as (m & -> & Hin & _).
  { destruct deltas; [destruct group; [congruence | discriminate] | discriminate]. }
  cbn [bind].
  pose proof (indexOf_found deltas m Hin) as Hlo.
  pose proof (indexOf_bound deltas m) as Hhi.
  destruct (nth_error group (Z.to_nat (indexOf deltas m))) as [c|] eqn:Hnth.
  - destruct (Z.ltb_spec (indexOf deltas m) 0); [lia|]. eauto.
  - apply nth_error_None in Hnth. lia.
Qed.

Lemma picks_sublist (reps : list Color) (groups : list (list Color)) :
  Forall2 (fun rep group => In rep group) reps groups -> sublist reps (concat groups).
Proof.
  induction 1 as [|rep group reps groups Hin _ IH]; [constructor|].
  apply in_split in Hin. destruct Hin as (l1 & l2 & ->).
  cbn [concat]. rewrite <- app_assoc. apply sublist_inserts_l.
  cbn [app]. apply sublist_skip. now apply sublist_inserts_l.
Qed.

(** What [consolidate] returns, in terms of the runs of the sorted array. *)
Lemma consolidate_runs (cm : ColorMath) (arr ref : list Color) (refDelta : Q) :
  exists (groups : list (list Color)) (open : list Color),
    splitRuns (pairCut cm refDelta) 0 (Array_sort arr) [] [] = (open, groups) /\
    concat groups ++ open = Array_sort arr /\
    Forall (fun g => g <> []) groups /\
    (length groups <= length arr / 2)%nat /\
    consolidate cm arr ref refDelta = mapM (representative cm ref) groups.
Proof.
  unfold consolidate.
  pose proof (groupPairs_splitRuns cm refDelta (length (Array_sort arr))
                (Array_sort arr) 0 [] [] (Nat.le_refl _) eq_refl) as Hsplit.
  pose proof (groupPairs_count cm refDelta (length (Array_sort arr))
                (Array_sort arr) [] [] (Nat.le_refl _)) as Hcount.
  destruct (groupPairs cm refDelta (Array_sort arr) [] []) as [open groups] eqn:Hgp.
  exists groups, open. symmetry in Hsplit.
  destruct (splitRuns_partition _ _ _ _ _ _ _ Hsplit) as (Hcat & Hne & _).
  split; [exact Hsplit|]. split; [exact Hcat|]. split; [apply Hne; constructor|].
  split; [|reflexivity].
  cbn in Hcount. unfold Array_sort in Hcount. rewrite sortBy_length in Hcount. exact Hcount.
Qed.

Lemma consolidate_Ret (cm : ColorMath) (arr ref : list Color) (refDelta : Q) :
  ref <> [] ->
  exists (groups : list (list Color)) (open reps : list Color),
    splitRuns (pairCut cm refDelta) 0 (Array_sort arr) [] [] = (open, groups) /\
    concat groups ++ open = Array_sort arr /\
    Forall (fun g => g <> []) groups /\
    (length groups <= length arr / 2)%nat /\
    consolidate cm arr ref refDelta = Ret reps /\
    Forall2 (fun rep group => In rep group) reps groups.
Proof.
  intros Href.
  destruct (consolidate_runs cm arr ref refDelta)
    as (groups & open & Hsplit & Hcat & Hne & Hlen & Heq).
  destruct (mapM_Ret (representative cm ref) groups) as (reps & Hreps & Hall).
  { eapply Forall_impl; [exact Hne|]. intros g Hg. now apply representative_Ret. }
  exists groups, open, reps. repeat (split; [assumption|]).
  split; [congruence|].
  clear -Hall. induction Hall as [|g rep groups reps Hrep _ IH]; constructor; [|exact IH].
  eapply representative_member. exact Hrep.
Qed.

(** ** The cache *)

Lemma reload_stringify (result : list Color) :
  Forall wfColor result ->
  mapM (fun entry => Spectra (color entry)) (JSON_stringify result) = Ret result.
Proof.
  induction 1 as [|c result Hc _ IH]; [reflexivity|].
  change (JSON_stringify (c :: result))
    with ({| color := hex c |} :: JSON_stringify result).
  cbn [mapM color]. unfold hex.
  rewrite Spectra_rgbNumberToHex by exact Hc. cbn [bind].
  rewrite IH. cbn [bind]. now destruct c.
Qed.

(** ** The statistics pass *)

Lemma setData_setData (d d' : gmap string (gmap string Q)) (g : Trackers) :
  setData d (setData d' g) = setData d g.
Proof. reflexivity. Qed.

Section ProcessPass.
Context (metric : string) (measureFn : Color -> Q) (update : Q -> Trackers -> Trackers).
Hypothesis update_data : forall v g, baseColorsData (update v g) = baseColorsData g.
Hypothesis update_setData : forall v d g, update v (setData d g) = setData d (update v g).

Lemma trackersAfter_setData (l : list Color) : forall d g,
  trackersAfter measureFn update l (setData d g)
  = setData d (trackersAfter measureFn update l g).
Proof.
  induction l as [|c l IH]; intros d g; [reflexivity|].
  cbn [trackersAfter fold_left]. fold (trackersAfter measureFn update l).
  destruct (tracked c); [rewrite update_setData|]; apply IH.
Qed.

Lemma mapState_process (l : list Color) : forall g,
  Forall (fun c => is_Some (baseColorsData g !! hex c)) l ->
  mapState (process metric measureFn (Some update)) l g
  = Ret (map measureFn l,
         setData (dataAfter metric measureFn l (baseColorsData g))
                 (trackersAfter measureFn update l g)).
Proof.
  induction l as [|c l IH]; intros g Hkeys.
  - cbn. now destruct g.
  - inversion Hkeys as [|? ? (row & Hrow) Hrest]; subst.
    cbn [mapState]. unfold process at 1. fold (tracked c).
    set (g1 := if tracked c then update (measureFn c) g else g).
    assert (Hd1 : baseColorsData g1 = baseColorsData g).
    { subst g1. destruct (tracked c); [apply update_data | reflexivity]. }
    unfold toString. rewrite Hd1, Hrow. cbn [bind].
    rewrite IH.
    + cbn [bind map]. f_equal. f_equal.
      cbn [setData baseColorsData]. rewrite trackersAfter_setData, setData_setData.
      cbn [dataAfter trackersAfter fold_left]. now rewrite Hrow.
    + cbn [setData baseColorsData]. eapply Forall_impl; [exact Hrest|].
      intros c' (row' & Hrow'). cbn beta.
      destruct (decide (hex c = hex c')) as [<-|Hne].
      * rewrite lookup_insert_eq. eauto.
      * rewrite lookup_insert_ne by exact Hne. eauto.
Qed.

Lemma dataAfter_snoc (l : list Color) (c : Color) (d : gmap string (gmap string Q)) :
  dataAfter metric measureFn (l ++ [c]) d
  = match dataAfter metric measureFn l d !! hex c with
    | Some row => <[hex c := <[metric := measureFn c]> row]> (dataAfter metric measureFn l d)
    | None => dataAfter metric measureFn l d
    end.
Proof. unfold dataAfter. now rewrite fold_left_app. Qed.

Lemma dataAfter_keys (l : list Color) (d : gmap string (gmap string Q)) (k : string) :
  is_Some (dataAfter metric measureFn l d !! k) <-> is_Some (d !! k).
Proof.
  induction l as [|c l IH] using rev_ind; [reflexivity|].
  rewrite dataAfter_snoc.
  destruct (dataAfter metric measureFn l d !! hex c) as [row|] eqn:Hrow; [|exact IH].
  rewrite <- IH. destruct (decide (hex c = k)) as [<-|Hne].
  - rewrite lookup_insert_eq, Hrow. split; eauto.
  - now rewrite lookup_insert_ne by exact Hne.
Qed.

Lemma dataAfter_other_metric (l : list Color) (d : gmap string (gmap string Q))
    (k m : string) :
  m <> metric -> cell (dataAfter metric measureFn l d) k m = cell d k m.
Proof.
  intros Hm. induction l as [|c l IH] using rev_ind; [reflexivity|].
  rewrite dataAfter_snoc. rewrite <- IH. unfold cell.
  destruct (dataAfter metric measureFn l d !! hex c) as [row|] eqn:Hrow; [|reflexivity].
  destruct (decide (hex c = k)) as [<-|Hne].
  - rewrite lookup_insert_eq, Hrow. apply lookup_insert_ne. congruence.
  - now rewrite lookup_insert_ne by exact Hne.
Qed.

Lemma dataAfter_metric (l : list Color) (d : gmap string (gmap string Q)) (c : Color) :
  In c l -> is_Some (d !! hex c) ->
  exists c', In c' l /\ hex c' = hex c /\
             cell (dataAfter metric measureFn l d) (hex c) metric = Some (measureFn c').
Proof.
  induction l as [|a l IH] using rev_ind; intros Hin Hkey; [destruct Hin|].
  rewrite dataAfter_snoc.
  pose proof (proj2 (dataAfter_keys l d (hex a))) as Hka.
  destruct (decide (hex a = hex c)) as [Heq|Hne].
  - exists a. split; [apply in_or_app; right; now left|]. split; [exact Heq|].
    rewrite Heq in *. destruct (Hka Hkey) as (row & Hrow). rewrite Hrow.
    unfold cell. rewrite lookup_insert_eq. apply lookup_insert_eq.
  - apply in_app_or in Hin. destruct Hin as [Hin|[->|[]]]; [|congruence].
    destruct (IH Hin Hkey) as (c' & Hc' & Hhex & Hcell).
    exists c'. split; [apply in_or_app; now left|]. split; [exact Hhex|].
    rewrite <- Hcell. unfold cell.
    destruct (dataAfter metric measureFn l d !! hex a); [|reflexivity].
    now rewrite lookup_insert_ne by exact Hne.
Qed.
End ProcessPass.

Lemma registerBaseColors_keys (baseColors : list Color) (c : Color) :
  In c baseColors -> is_Some (registerBaseColors baseColors !! hex c).
Proof.
  unfold registerBaseColors.
  induction baseColors as [|a l IH] using rev_ind; intros Hin; [destruct Hin|].
  rewrite fold_left_app. cbn [fold_left].
  destruct (decide (hex a = hex c)) as [->|Hne].
  - rewrite lookup_insert_eq. eauto.
  - rewrite lookup_insert_ne by exact Hne.
    apply in_app_or in Hin. destruct Hin as [Hin|[->|[]]]; [now apply IH | congruence].
Qed.

Lemma runningMin_spec (values : list Q) : forall init,
  isRunningMin init values (runningMin init values).
Proof.
  unfold isRunningMin, runningMin.
  induction values as [|v values IH]; intros init; cbn [fold_left].
  - split; [apply Qle_refl|]. split; [constructor | now left].
  - destruct (Qltb v init) eqn:Hlt.
    + destruct (IH v) as (Hle & Hall & Hin). apply Qltb_lt in Hlt.
      split; [eapply Qle_trans; [exact Hle | now apply Qlt_le_weak]|].
      split; [constructor; assumption|].
      right. destruct Hin as [->|Hin]; [now left | now right].
    + destruct (IH init) as (Hle & Hall & Hin). apply Qltb_ge in Hlt.
      split; [exact Hle|]. split; [constructor; [eapply Qle_trans; eassumption | exact Hall]|].
      destruct Hin as [->|Hin]; [now left | right; now right].
Qed.

Lemma runningMax_spec (values : list Q) : forall init,
  isRunningMax init values (runningMax init values).
Proof.
  unfold isRunningMax, runningMax.
  induction values as [|v values IH]; intros init; cbn [fold_left].
  - split; [apply Qle_refl|]. split; [constructor | now left].
  - destruct (Qltb init v) eqn:Hlt.
    + destruct (IH v) as (Hle & Hall & Hin). apply Qltb_lt in Hlt.
      split; [eapply Qle_trans; [apply Qlt_le_weak; exact Hlt | exact Hle]|].
      split; [constructor; assumption|].
      right. destruct Hin as [->|Hin]; [now left | now right].
    + destruct (IH init) as (Hle & Hall & Hin). apply Qltb_ge in Hlt.
      split; [exact Hle|]. split; [constructor; [eapply Qle_trans; eassumption | exact Hall]|].
      destruct Hin as [->|Hin]; [now left | right; now right].
Qed.

Lemma trackersAfter_cons (f : Color -> Q) (update : Q -> Trackers -> Trackers)
    (c : Color) (l : list Color) (g : Trackers) :
  trackersAfter f update (c :: l) g
  = trackersAfter f update l (if tracked c then update (f c) g else g).
Proof. reflexivity. Qed.

(** The trackers after a pass, one lemma for each update function. *)
Lemma trackersAfter_black (f : Color -> Q) (l : list Color) : forall g,
  trackersAfter f updateMinBlackDeltaE l g
  = setMinBlackDeltaE (runningMin (refMinBlackDeltaE g) (map f (List.filter tracked l))) g.
Proof.
  induction l as [|c l IH]; intros g; [now destruct g|].
  rewrite trackersAfter_cons, IH. cbn [List.filter]. destruct (tracked c); [|reflexivity].
  cbn [map runningMin fold_left]. unfold updateMinBlackDeltaE.
  destruct (Qltb (f c) (refMinBlackDeltaE g)); reflexivity.
Qed.

Lemma trackersAfter_white (f : Color -> Q) (l : list Color) : forall g,
  trackersAfter f updateMinWhiteDeltaE l g
  = setMinWhiteDeltaE (runningMin (refMinWhiteDeltaE g) (map f (List.filter tracked l))) g.
Proof.
  induction l as [|c l IH]; intros g; [now destruct g|].
  rewrite trackersAfter_cons, IH. cbn [List.filter]. destruct (tracked c); [|reflexivity].
  cbn [map runningMin fold_left]. unfold updateMinWhiteDeltaE.
  destruct (Qltb (f c) (refMinWhiteDeltaE g)); reflexivity.
Qed.

Lemma trackersAfter_luma (f : Color -> Q) (l : list Color) : forall g,
  trackersAfter f updateLuma l g
  = setMaxLuma (runningMax (refMaxLuma g) (map f (List.filter tracked l)))
      (setMinLuma (runningMin (refMinLuma g) (map f (List.filter tracked l))) g).
Proof.
  induction l as [|c l IH]; intros g; [now destruct g|].
  rewrite trackersAfter_cons, IH. cbn [List.filter]. destruct (tracked c); [|reflexivity].
  cbn [map runningMin runningMax fold_left]. unfold updateLuma.
  destruct (Qltb (f c) (refMinLuma g)); cbn [setMinLuma refMaxLuma];
    destruct (Qltb (refMaxLuma g) (f c)); reflexivity.
Qed.

Lemma calcMedian_process (metric : string) (f : Color -> Q)
    (update : Q -> Trackers -> Trackers) (baseColors : list Color) (g : Trackers) :
  (forall v g, baseColorsData (update v g) = baseColorsData g) ->
  (forall v d g, update v (setData d g) = setData d (update v g)) ->
  baseColors <> [] ->
  Forall (fun c => is_Some (baseColorsData g !! hex c)) baseColors ->
  exists m,
    calcMedian baseColors (process metric f (Some update)) g
    = Ret (m, setData (dataAfter metric f baseColors (baseColorsData g))
                      (trackersAfter f update baseColors g)) /\
    isMedianOf (map f baseColors) m.
Proof.
  intros Hdata Hset Hne Hkeys. unfold calcMedian.
  rewrite (mapState_process metric f update Hdata Hset baseColors g Hkeys).
  cbn [bind].
  destruct (math_median_spec (map f baseColors)) as (m & Hm & Hmed).
  { destruct baseColors; [congruence | discriminate]. }
  exists m. rewrite Hm. split; [reflexivity | exact Hmed].
Qed.

Lemma updateMinBlackDeltaE_data v g :
  baseColorsData (updateMinBlackDeltaE v g) = baseColorsData g.
Proof. unfold updateMinBlackDeltaE. now destruct (Qltb _ _). Qed.

Lemma updateMinBlackDeltaE_setData v d g :
  updateMinBlackDeltaE v (setData d g) = setData d (updateMinBlackDeltaE v g).
Proof. unfold updateMinBlackDeltaE. cbn. now destruct (Qltb _ _). Qed.

Lemma updateMinWhiteDeltaE_data v g :
  baseColorsData (updateMinWhiteDeltaE v g) = baseColorsData g.
Proof. unfold updateMinWhiteDeltaE. now destruct (Qltb _ _). Qed.

Lemma updateMinWhiteDeltaE_setData v d g :
  updateMinWhiteDeltaE v (setData d g) = setData d (updateMinWhiteDeltaE v g).
Proof. unfold updateMinWhiteDeltaE. cbn. now destruct (Qltb _ _). Qed.

Lemma updateLuma_data v g : baseColorsData (updateLuma v g) = baseColorsData g.
Proof.
  unfold updateLuma. destruct (Qltb v (refMinLuma g)); cbn;
    now destruct (Qltb (refMaxLuma g) v).
Qed.

Lemma updateLuma_setData v d g : updateLuma v (setData d g) = setData d (updateLuma v g).
Proof.
  unfold updateLuma. cbn. destruct (Qltb v (refMinLuma g)); cbn;
    now destruct (Qltb (refMaxLuma g) v).
Qed.

(** The whole pass on a non-empty list of base colours. *)
Lemma statistics_value (cm : ColorMath) (baseColors : list Color) :
  baseColors <> [] ->
  let blackDeltaE := fun color => getDeltaE00 cm (toLab cm color) (blackLab cm) in
  let whiteDeltaE := fun color => getDeltaE00 cm (toLab cm color) (whiteLab cm) in
  let others := List.filter tracked baseColors in
  exists mBlack mWhite mDelta mLuma,
    statistics cm baseColors
    = Ret {| trackers :=
               {| baseColorsData :=
                    dataAfter "luma" (luma cm) baseColors
                      (dataAfter "whiteDeltaE" whiteDeltaE baseColors
                         (dataAfter "blackDeltaE" blackDeltaE baseColors
                            (registerBaseColors baseColors)));
                  refMinBlackDeltaE := runningMin 100 (map blackDeltaE others);
                  refMinWhiteDeltaE := runningMin 100 (map whiteDeltaE others);
                  refMinLuma := runningMin 255 (map (luma cm) others);
                  refMaxLuma := runningMax 0 (map (luma cm) others) |};
             refBlackDeltaE := mBlack; refWhiteDeltaE := mWhite;
             refDeltaE := mDelta; refLuma := mLuma |} /\
    isMedianOf (map blackDeltaE baseColors) mBlack /\
    isMedianOf (map whiteDeltaE baseColors) mWhite /\
    isMedianOf (map (luma cm) baseColors) mLuma /\
    exists medians,
      Forall2 (fun color m =>
                 isMedianOf (map (fun baseColor =>
                                    getDeltaE00 cm (toLab cm color) (toLab cm baseColor))
                                 baseColors) m) baseColors medians /\
      isMedianOf medians mDelta.
Proof.
  intros Hne blackDeltaE whiteDeltaE others. unfold statistics.
  fold blackDeltaE. fold whiteDeltaE.
  assert (Hkeys0 : Forall (fun c => is_Some (registerBaseColors baseColors !! hex c))
                     baseColors).
  { apply List.Forall_forall. intros c Hc. now apply registerBaseColors_keys. }
  destruct (calcMedian_process "blackDeltaE" blackDeltaE updateMinBlackDeltaE baseColors
              (initialTrackers baseColors) updateMinBlackDeltaE_data
              updateMinBlackDeltaE_setData Hne Hkeys0) as (mBlack & -> & HmB).
  cbn [bind].
  set (g1 := setData _ (trackersAfter blackDeltaE updateMinBlackDeltaE baseColors _)).
  assert (Hkeys1 : Forall (fun c => is_Some (baseColorsData g1 !! hex c)) baseColors).
  { subst g1. cbn [setData baseColorsData]. eapply Forall_impl; [exact Hkeys0|].
    intros c Hc. now apply dataAfter_keys. }
  destruct (calcMedian_process "whiteDeltaE" whiteDeltaE updateMinWhiteDeltaE baseColors
              g1 updateMinWhiteDeltaE_data updateMinWhiteDeltaE_setData Hne Hkeys1)
    as (mWhite & -> & HmW).
  cbn [bind].
  set (g2 := setData _ (trackersAfter whiteDeltaE updateMinWhiteDeltaE baseColors _)).
  assert (Hkeys2 : Forall (fun c => is_Some (baseColorsData g2 !! hex c)) baseColors).
  { subst g2. cbn [setData baseColorsData]. eapply Forall_impl; [exact Hkeys1|].
    intros c Hc. now apply dataAfter_keys. }
  destruct (mapM_Ret
              (fun color => math_median
                              (map (fun baseColor =>
                                      getDeltaE00 cm (toLab cm color) (toLab cm baseColor))
                                   baseColors))
              baseColors) as (medians & -> & Hmedians).
  { apply Forall_forall. intros color _. apply math_median_Ret.
    destruct baseColors; [congruence | discriminate]. }
  cbn [bind].
  destruct (math_median_spec medians) as (mDelta & -> & HmD).
  { apply Forall2_length in Hmedians. destruct medians; [|discriminate].
    destruct baseColors; [congruence | discriminate]. }
  cbn [bind].
  destruct (calcMedian_process "luma" (fun color => luma cm color) updateLuma baseColors
              g2 updateLuma_data updateLuma_setData Hne Hkeys2) as (mLuma & -> & HmL).
  cbn [bind].
  exists mBlack, mWhite, mDelta, mLuma. split; [|split; [exact HmB|split; [exact HmW|]]].
  - f_equal. f_equal. subst g2 g1.
    rewrite trackersAfter_luma, trackersAfter_white, trackersAfter_black. reflexivity.
  - split; [exact HmL|]. exists medians. split; [|exact HmD].
    eapply List.Forall2_impl; [|exact Hmedians]. intros color m Hm. cbn beta in Hm.
    destruct (math_median_spec
                (map (fun baseColor => getDeltaE00 cm (toLab cm color) (toLab cm baseColor))
                     baseColors)) as (m' & Hm' & Hmed');
      [destruct baseColors; [congruence | discriminate]|].
    rewrite Hm in Hm'. now injection Hm' as ->.
Qed.

(** ** Clamped bands *)

Lemma Qltb_raised_floor (v low minimum : Q) :
  Qltb (if Qltb low minimum then minimum else low) v = Qltb minimum v && Qltb low v.
Proof.
  apply eq_true_iff_eq. rewrite andb_true_iff.
  destruct (Qltb low minimum) eqn:Hc; rewrite !Qltb_lt.
  - apply Qltb_lt in Hc. split; [intros; split; lra | tauto].
  - apply Qltb_ge in Hc. split; [intros; split; lra | tauto].
Qed.

Lemma Qltb_lowered_ceiling (v high maximum : Q) :
  Qltb v (if Qltb maximum high then maximum else high) = Qltb v maximum && Qltb v high.
Proof.
  apply eq_true_iff_eq. rewrite andb_true_iff.
  destruct (Qltb maximum high) eqn:Hc; rewrite !Qltb_lt.
  - apply Qltb_lt in Hc. split; [intros; split; lra | tauto].
  - apply Qltb_ge in Hc. split; [intros; split; lra | tauto].
Qed.

(** ** The sampler over the whole list *)

Lemma in_offsetsFrom (j : Z) (n : nat) (x : Z) :
  In x (offsetsFrom j n) <-> j <= x < j + Z.of_nat n.
Proof.
  unfold offsetsFrom. rewrite in_map_iff. split.
  - intros (i & <- & Hi). apply in_seq in Hi. lia.
  - intros Hx. exists (Z.to_nat (x - j)). split; [lia|]. apply in_seq. lia.
Qed.

Lemma in_probesAt (middle : Z) (offsets : list Z) (x : Z) :
  In x (probesAt middle offsets) <->
  exists j, In j offsets /\ (x = middle + j \/ x = middle - j).
Proof.
  unfold probesAt. rewrite in_flat_map. split.
  - intros (j & Hj & [<-|[<-|[]]]); exists j; auto.
  - intros (j & Hj & [->| ->]); exists j; split; auto; cbn; auto.
Qed.

Lemma samplePair_bracket (start end_ : Color) (n : nat) :
  rgbNumber start <= rgbNumber end_ ->
  let samples := (rgbNumber end_ - rgbNumber start + 1) / 2 in
  let middle := rgbNumber start + samples in
  Z.of_nat n <= Z.max 0 (samples - 1) ->
  Forall (fun x => rgbNumber start <= x <= rgbNumber end_)
         (middle :: probesAt middle (offsetsFrom 1 n)).
Proof.
  intros Hle samples middle Hn.
  assert (Hsam : 0 <= samples /\ 2 * samples <= rgbNumber end_ - rgbNumber start + 1).
  { subst samples. split; [apply Z.div_pos; lia|]. apply Z.mul_div_le. lia. }
  assert (Hmid : rgbNumber start <= middle <= rgbNumber end_).
  { subst middle. destruct (Z.eq_dec (rgbNumber end_) (rgbNumber start)) as [Heq|Hne].
    - subst samples. rewrite Heq, Z.sub_diag. change ((0 + 1) / 2) with 0. lia.
    - lia. }
  constructor; [exact Hmid|].
  apply List.Forall_forall. intros x Hx.
  apply in_probesAt in Hx. destruct Hx as (j & Hj & Hx).
  apply in_offsetsFrom in Hj. subst middle. lia.
Qed.

Lemma accepted_analyze (cm : ColorMath) (g : Trackers) (ns : list Z) (c : Color) :
  Forall (fun n => 0 <= n < 16777216) ns ->
  In c (accepted cm g ns) ->
  In (rgbNumber c) ns /\ analyze cm g (rgbNumber c) = Ret (Some c) /\ wfColor c.
Proof.
  intros Hns Hin. unfold accepted in Hin. apply in_flat_map in Hin.
  destruct Hin as (n & Hn & Hc).
  rewrite List.Forall_forall in Hns. specialize (Hns n Hn).
  destruct (analyze_in_range cm g n Hns) as (r & Hr & Hcases).
  rewrite Hr in Hc. destruct Hcases as [-> | ->]; [destruct Hc|].
  destruct Hc as [<-|[]]. cbn [rgbNumber]. auto.
Qed.

Lemma samplePairs_trace (cm : ColorMath) (g : Trackers) (colors : list Color) :
  forall s : Sampling,
  Forall wfColor colors ->
  Sorted (fun a b => rgbNumber a <= rgbNumber b) colors ->
  exists new : list Z,
    samplePairs cm g colors s
    = Ret {| classified := classified s ++ accepted cm g new;
             analyzed := analyzed s ++ new |} /\
    Forall (fun n => 0 <= n < 16777216) new /\
    (length colors <= 1 -> new = [])%nat.
Proof.
  induction colors as [|start colors IH]; intros s Hwf Hsorted.
  - exists []. cbn. rewrite !app_nil_r. split; [now destruct s|]. split; [constructor | auto].
  - destruct colors as [|end_ rest].
    + exists []. cbn. rewrite !app_nil_r. split; [now destruct s|].
      split; [constructor | auto].
    + inversion Hwf as [|? ? Hs Hwf']; subst.
      inversion Hsorted as [|? ? Hsorted' Hhd]; subst.
      inversion Hhd as [|? ? Hle]; subst.
      assert (He : wfColor end_) by now inversion Hwf'.
      destruct (samplePair_trace cm g start end_ s Hs He Hle) as (n & Hn & _ & _ & Heq).
      pose proof (samplePair_bracket start end_ n Hle Hn) as Hbr.
      cbv zeta in Heq, Hbr.
      change (samplePairs cm g (start :: end_ :: rest) s)
        with (do s1 <- samplePair cm g start end_ s; samplePairs cm g (end_ :: rest) s1).
      rewrite Heq. cbn [bind].
      match goal with
      | |- context [samplePairs cm g (end_ :: rest) ?s1] =>
          destruct (IH s1 Hwf' Hsorted') as (new & Hnew & Hrange & _)
      end.
      rewrite Hnew. cbn [classified analyzed].
      eexists. split.
      * rewrite <- !app_assoc, <- accepted_app. reflexivity.
      * split; [|cbn; lia].
        apply Forall_app. split; [|exact Hrange].
        eapply List.Forall_impl; [|exact Hbr]. unfold wfColor in Hs, He.
        cbn beta. intros x Hx. lia.
Qed.

Lemma hex_black_white : hex black = "#000000" /\ hex white = "#ffffff".
Proof. split; reflexivity. Qed.

Lemma hex_is_black (c : Color) : wfColor c -> String.eqb (hex c) "#000000" = true -> c = black.
Proof.
  intros Hc Heq. apply String.eqb_eq in Heq. apply hex_inj; [exact Hc | cbv; intuition discriminate | exact Heq].
Qed.

Lemma hex_is_white (c : Color) : wfColor c -> String.eqb (hex c) "#ffffff" = true -> c = white.
Proof.
  intros Hc Heq. apply String.eqb_eq in Heq. apply hex_inj; [exact Hc | cbv; intuition discriminate | exact Heq].
Qed.

Lemma Sorted_rgb_snoc (l : list Color) (x : Color) :
  Sorted (fun a b => rgbNumber a <= rgbNumber b) l ->
  Forall (fun a => rgbNumber a <= rgbNumber x) l ->
  Sorted (fun a b => rgbNumber a <= rgbNumber b) (l ++ [x]).
Proof.
  induction 1 as [|a l Hs IH Hhd]; intros Hall; cbn.
  - repeat constructor.
  - inversion Hall as [|? ? Ha Hl]; subst. constructor; [now apply IH|].
    destruct Hhd as [|b l Hab]; cbn; constructor; assumption.
Qed.

Lemma withSentinels_shape (baseColors : list Color) :
  baseColors <> [] -> Forall wfColor baseColors ->
  Sorted (fun a b => rgbNumber a <= rgbNumber b) baseColors ->
  exists pre post,
    withSentinels baseColors = pre ++ baseColors ++ post /\
    (pre = [] \/ pre = [black]) /\ (post = [] \/ post = [white]) /\
    head (withSentinels baseColors) = Some black /\
    List.last (withSentinels baseColors) black = white /\
    Forall wfColor (withSentinels baseColors) /\
    Sorted (fun a b => rgbNumber a <= rgbNumber b) (withSentinels baseColors).
Proof.
  intros Hne Hwf Hsorted. destruct baseColors as [|first rest]; [congruence|].
  set (base := first :: rest) in *.
  assert (Hwb : wfColor black) by (cbv; intuition discriminate).
  assert (Hww : wfColor white) by (cbv; intuition discriminate).
  set (colors := if negb (String.eqb (hex first) "#000000") then black :: base else base).
  assert (Hcolors : exists pre, colors = pre ++ base /\ (pre = [] \/ pre = [black]) /\
                                head colors = Some black /\ Forall wfColor colors /\
                                Sorted (fun a b => rgbNumber a <= rgbNumber b) colors).
  { subst colors. destruct (String.eqb (hex first) "#000000") eqn:Hb; cbn [negb].
    - exists []. split; [reflexivity|]. split; [now left|].
      split; [|split; assumption].
      subst base. cbn. f_equal. apply hex_is_black; [now inversion Hwf | exact Hb].
    - exists [black]. split; [reflexivity|]. split; [now right|].
      split; [reflexivity|]. split; [now constructor|].
      constructor; [exact Hsorted|]. subst base. constructor.
      inversion Hwf as [|? ? Hf _]; subst. unfold wfColor in Hf. cbn. lia. }
  destruct Hcolors as (pre & Hpre & Hprecases & Hhead & Hwfc & Hsc).
  assert (Hnil : colors <> []).
  { rewrite Hpre. subst base. destruct pre; discriminate. }
  change (withSentinels base)
    with (if negb (String.eqb (hex (List.last colors black)) "#ffffff")
          then colors ++ [white] else colors).
  destruct (String.eqb (hex (List.last colors black)) "#ffffff") eqn:Hw; cbn [negb].
  - exists pre, []. rewrite app_nil_r. split; [exact Hpre|]. split; [exact Hprecases|].
    split; [now left|]. split; [exact Hhead|]. split; [|split; assumption].
    apply hex_is_white; [|exact Hw].
    rewrite List.Forall_forall in Hwfc. apply Hwfc.
    destruct (exists_last Hnil) as (l' & a & ->). rewrite last_last.
    apply in_or_app. right. now left.
  - exists pre, [white]. split; [now rewrite Hpre, <- app_assoc|].
    split; [exact Hprecases|]. split; [now right|].
    split; [destruct colors; [congruence | exact Hhead]|].
    split; [apply last_last|]. split.
    + apply Forall_app. split; [exact Hwfc | now constructor].
    + apply Sorted_rgb_snoc; [exact Hsc|].
      eapply List.Forall_impl; [|exact Hwfc]. unfold wfColor. cbn. intros a Ha. lia.
Qed.

(** ** More on the consolidator *)

Lemma sublist_In (l1 l2 : list Color) (x : Color) : sublist l1 l2 -> In x l1 -> In x l2.
Proof.
  induction 1 as [|y l1 l2 _ IH|y l1 l2 _ IH]; intros Hin.
  - destruct Hin.
  - destruct Hin as [->|Hin]; [now left | right; now apply IH].
  - right. now apply IH.
Qed.

Lemma math_median_inv (values : list Q) (m : Q) :
  math_median values = Ret m -> values <> [] /\ isMedianOf values m.
Proof.
  intros Hm. destruct values as [|v vs]; [discriminate|].
  split; [discriminate|].
  destruct (math_median_spec (v :: vs)) as (m' & Hm' & Hmed); [discriminate|].
  rewrite Hm in Hm'. now injection Hm' as ->.
Qed.

Lemma math_max_inv (values : list Q) (m : Q) :
  math_max values = Ret m -> isMaximumOf values m.
Proof.
  intros Hm. destruct values as [|v vs]; [discriminate|].
  destruct (math_max_spec (v :: vs)) as (m' & Hm' & Hmax); [discriminate|].
  rewrite Hm in Hm'. now injection Hm' as ->.
Qed.

(** [indexOf] gives the first position that holds the number. *)
Lemma indexOf_first (arr : list Q) (x : Q) :
  0 <= indexOf arr x ->
  exists y, nth_error arr (Z.to_nat (indexOf arr x)) = Some y /\ (y == x)%Q /\
            forall j z, (j < Z.to_nat (indexOf arr x))%nat -> nth_error arr j = Some z ->
                        ~ (z == x)%Q.
Proof.
  induction arr as [|y arr IH]; cbn [indexOf]; [lia|].
  destruct (Qeq_bool y x) eqn:Heq.
  - intros _. exists y. cbn. split; [reflexivity|]. split; [now apply Qeq_bool_iff|].
    intros j z Hj. lia.
  - destruct (Z.ltb_spec (indexOf arr x) 0) as [Hneg|Hpos]; [lia|]. intros _.
    destruct (IH Hpos) as (y' & Hnth & Hy' & Hfirst).
    exists y'. replace (Z.to_nat (indexOf arr x + 1)) with (S (Z.to_nat (indexOf arr x))) by lia.
    split; [exact Hnth|]. split; [exact Hy'|].
    intros [|j] z Hj Hz.
    + cbn in Hz. injection Hz as <-. intros Hyx. apply Qeq_bool_iff in Hyx. congruence.
    + cbn in Hz. apply (Hfirst j z); [lia | exact Hz].
Qed.

Lemma representative_throws_without_reference (cm : ColorMath) (group : list Color) :
  group <> [] ->
  representative cm [] group = Throw "Cannot calculate median of an empty array".
Proof.
  destruct group as [|c group]; [congruence|]. intros _. reflexivity.
Qed.

Lemma Array_sort_unique (arr arr' : list Color) :
  Forall wfColor arr -> Permutation arr arr' -> Array_sort arr = Array_sort arr'.
Proof.
  intros Hwf Hperm.
  assert (Hwf' : Forall wfColor arr') by (eapply Permutation_Forall; eassumption).
  apply (StronglySorted_unique_strong (fun a b => rgbNumber a <= rgbNumber b)).
  - intros [a] [b] _ _ Hab Hba. cbn in *. f_equal. lia.
  - now apply Array_sort_sorted.
  - now apply Array_sort_sorted.
  - rewrite <- (Array_sort_perm arr), <- (Array_sort_perm arr'). exact Hperm.
Qed.

Lemma consolidate_members (cm : ColorMath) (arr ref : list Color) (refDelta : Q) :
  ref <> [] ->
  exists reps : list Color,
    consolidate cm arr ref refDelta = Ret reps /\
    sublist reps (Array_sort arr) /\
    Forall (fun c => In c arr) reps /\
    (2 * length reps <= length arr)%nat.
Proof.
  intros Href.
  destruct (consolidate_Ret cm arr ref refDelta Href)
    as (groups & open & reps & _ & Hcat & _ & Hlen & Heq & Hin).
  assert (Hsub : sublist reps (Array_sort arr)).
  { rewrite <- Hcat. apply sublist_inserts_r. now apply picks_sublist. }
  exists reps. split; [exact Heq|]. split; [exact Hsub|]. split.
  - apply List.Forall_forall. intros c Hc.
    eapply Permutation_in; [symmetry; apply Array_sort_perm|].
    eapply sublist_In; eassumption.
  - apply Forall2_length in Hin.
    pose proof (Nat.Div0.mul_div_le (length arr) 2). lia.
Qed.

(** ** More on the adaptive threshold *)

Lemma adjustDelta_value (cm : ColorMath) (source ref : list Color) :
  source <> [] -> ref <> [] ->
  exists (mins : list Q) (m : Q),
    adjustDelta cm source ref = Ret m /\
    Forall2 (fun color d =>
               isMinimumOf (map (fun refColor =>
                                   getDeltaE00 cm (toLab cm color) (toLab cm refColor)) ref) d)
            source mins /\
    isMedianOf mins m.
Proof.
  intros Hsource Href. unfold adjustDelta.
  destruct (mapM_Ret
              (fun color => math_min
                              (map (fun refColor =>
                                      getDeltaE00 cm (toLab cm color) (toLab cm refColor)) ref))
              source) as (mins & Hmins & Hall).
  { apply List.Forall_forall. intros color _.
    destruct (math_min_spec
                (map (fun refColor => getDeltaE00 cm (toLab cm color) (toLab cm refColor)) ref))
      as (d & Hd & _); [destruct ref; [congruence | discriminate] | eauto]. }
  rewrite Hmins. cbn [bind].
  destruct (math_median_spec mins) as (m & Hm & Hmed).
  { apply Forall2_length in Hall. destruct mins; [|discriminate].
    destruct source; [congruence | discriminate]. }
  exists mins, m. split; [exact Hm|]. split; [|exact Hmed].
  eapply List.Forall2_impl; [|exact Hall]. intros color d Hd. cbn beta in Hd.
  destruct (math_min_spec
              (map (fun refColor => getDeltaE00 cm (toLab cm color) (toLab cm refColor)) ref))
    as (d' & Hd' & Hmin); [destruct ref; [congruence | discriminate]|].
  rewrite Hd in Hd'. now injection Hd' as ->.
Qed.

Lemma median_between (values : list Q) (m a b : Q) :
  values <> [] -> isMedianOf values m ->
  Forall (fun v => (a <= v <= b)%Q) values -> (a <= m <= b)%Q.
Proof.
  intros Hne (sorted & Hperm & _ & Hm) Hall. cbv zeta in Hm.
  assert (Hs : Forall (fun v => (a <= v <= b)%Q) sorted)
    by (eapply Permutation_Forall; eassumption).
  pose proof (Permutation_length Hperm) as Hlen.
  assert (Hpos : (0 < length values)%nat) by (destruct values; [congruence | cbn; lia]).
  assert (Hnth : forall i, (i < length values)%nat -> (a <= nth i sorted 0 <= b)%Q).
  { intros i Hi. rewrite List.Forall_forall in Hs. apply Hs. apply nth_In. lia. }
  destruct (Nat.even (length values)) eqn:Hev; subst m.
  - assert (Htwo : (2 <= length values)%nat).
    { destruct (length values) as [|[|k]]; [lia | discriminate | lia]. }
    assert (Hhalf : (length values / 2 < length values)%nat) by (apply Nat.div_lt; lia).
    pose proof (Hnth (length values / 2 - 1)%nat ltac:(lia)) as H1.
    pose proof (Hnth (length values / 2)%nat Hhalf) as H2.
    split; [apply Qle_shift_div_l | apply Qle_shift_div_r]; lra.
  - apply Hnth. assert ((length values - 1) / 2 <= length values - 1)%nat
      by (apply Nat.Div0.div_le_upper_bound; lia). lia.
Qed.

(** ** Single-colour runs *)

Lemma accepted_nothing (cm : ColorMath) (g : Trackers) (ns : list Z) :
  (forall n, In n ns -> analyze cm g n = Ret None) -> accepted cm g ns = [].
Proof.
  intros Hnone. unfold accepted. induction ns as [|n ns IH]; [reflexivity|].
  cbn [flat_map]. rewrite (Hnone n) by now left. cbn [app].
  apply IH. intros n' Hn'. apply Hnone. now right.
Qed.

Lemma analyze_none_empty_band (cm : ColorMath) (g : Trackers) (n : Z) :
  (refMaxLuma g <= refMinLuma g)%Q -> 0 <= n < 16777216 ->
  analyze cm g n = Ret None.
Proof.
  intros Hband Hn. unfold analyze. rewrite Spectra_rgbNumberToHex by exact Hn.
  cbn [bind].
  destruct (between (luma cm (mkColor n)) (refMinLuma g) (refMaxLuma g) None) eqn:Hb.
  - apply between_open in Hb. lra.
  - repeat match goal with
           | |- (if negb ?b then Ret None else ?k) = Ret None =>
               destruct b; cbn [negb]; [|reflexivity]
           end.
    reflexivity.
Qed.

(** ** The cache paths *)

Lemma append_length (s t : string) :
  String.length (s ++ t)%string = (String.length s + String.length t)%nat.
Proof.
  induction s as [|c s IH]; [reflexivity|].
  change (S (String.length (s ++ t)%string) = S (String.length s + String.length t)%nat).
  now rewrite IH.
Qed.

Lemma append_inj_l (t : string) : forall s1 s2 : string,
  (s1 ++ t)%string = (s2 ++ t)%string -> s1 = s2.
Proof.
  induction s1 as [|c1 s1 IH]; intros [|c2 s2] Heq.
  - reflexivity.
  - apply (f_equal String.length) in Heq. rewrite !append_length in Heq.
    cbn in Heq. lia.
  - apply (f_equal String.length) in Heq. rewrite !append_length in Heq.
    cbn in Heq. lia.
  - change (String c1 (s1 ++ t)%string = String c2 (s2 ++ t)%string) in Heq.
    injection Heq as -> Heq. f_equal. now apply IH.
Qed.

Lemma cachePathOf_inj (id id' : string) : cachePathOf id = cachePathOf id' -> id = id'.
Proof.
  unfold cachePathOf. cbn. intros Heq. injection Heq as Heq.
  change ((id ++ ".json")%string = (id' ++ ".json")%string) in Heq.
  now apply append_inj_l in Heq.
Qed.

(** ** Loading *)

Lemma insertSorted_map {X Y : Type} (leb : Y -> Y -> bool) (f : X -> Y) (x : X) (l : list X) :
  insertSorted leb (f x) (map f l) = map f (insertSorted (fun a b => leb (f a) (f b)) x l).
Proof.
  induction l as [|y l IH]; [reflexivity|].
  cbn [map insertSorted]. destruct (leb (f x) (f y)); [reflexivity|].
  cbn [map]. now rewrite IH.
Qed.

Lemma sortBy_map {X Y : Type} (leb : Y -> Y -> bool) (f : X -> Y) (l : list X) :
  sortBy leb (map f l) = map f (sortBy (fun a b => leb (f a) (f b)) l).
Proof.
  induction l as [|x l IH]; [reflexivity|].
  cbn [map sortBy fold_right]. fold (sortBy leb (map f l)).
  fold (sortBy (fun a b => leb (f a) (f b)) l).
  now rewrite IH, insertSorted_map.
Qed.

Lemma load_codes {S : Type} (call : Color -> S -> S) (l : list Color) : forall s : S,
  Forall wfColor l ->
  mapState (fun e s => do color <- Spectra e; Ret (color, call color s)) (map hex l) s
  = Ret (l, fold_left (fun s c => call c s) l s).
Proof.
  induction l as [|c l IH]; intros s Hwf; [reflexivity|].
  inversion Hwf as [|? ? Hc Hl]; subst.
  cbn [map mapState]. unfold hex at 1.
  rewrite Spectra_rgbNumberToHex by exact Hc. cbn [bind].
  rewrite IH by exact Hl. cbn [bind fold_left]. now destruct c.
Qed.

(** ** The rounds *)

Lemma thirdRoundRaw_spec (cm : ColorMath) (st : Stats) (baseColors classified : list Color)
    (refBaseDelta refDelta : Q) (ref : list Color) : forall raw : list Color,
  Forall wfColor ref ->
  exists more : list Color,
    thirdRoundRaw cm st baseColors classified refBaseDelta refDelta ref raw
    = Ret (raw ++ more) /\
    (length more <= length ref)%nat /\
    Forall (fun c =>
              In c ref /\
              analyze cm (trackers st) (rgbNumber c) = Ret (Some c) /\
              hasGoodDeltaAll cm (refDeltaE st) c baseColors (Some refBaseDelta) = true /\
              hasGoodDeltaAll cm (refDeltaE st) c classified (Some refDelta) = true) more.
Proof.
  induction ref as [|p ref IH]; intros raw Hwf.
  - exists []. cbn. rewrite app_nil_r. repeat split; [lia | constructor].
  - inversion Hwf as [|? ? Hp Hwf']; subst.
    cbn [thirdRoundRaw].
    destruct (analyze_in_range cm (trackers st) (rgbNumber p) Hp) as (r & Hr & Hcases).
    rewrite Hr. cbn [bind].
    assert (Hweak : forall more : list Color,
               Forall (fun c =>
                         In c ref /\
                         analyze cm (trackers st) (rgbNumber c) = Ret (Some c) /\
                         hasGoodDeltaAll cm (refDeltaE st) c baseColors (Some refBaseDelta)
                         = true /\
                         hasGoodDeltaAll cm (refDeltaE st) c classified (Some refDelta)
                         = true) more ->
               Forall (fun c =>
                         In c (p :: ref) /\
                         analyze cm (trackers st) (rgbNumber c) = Ret (Some c) /\
                         hasGoodDeltaAll cm (refDeltaE st) c baseColors (Some refBaseDelta)
                         = true /\
                         hasGoodDeltaAll cm (refDeltaE st) c classified (Some refDelta)
                         = true) more).
    { intros more Hm. eapply List.Forall_impl; [|exact Hm].
      cbn beta. intros c (H1 & H2). split; [now right | exact H2]. }
    destruct Hcases as [-> | ->].
    + destruct (IH raw Hwf') as (more & Heq & Hlen & Hall).
      exists more. split; [exact Heq|]. split; [cbn; lia | now apply Hweak].
    + assert (Hpp : mkColor (rgbNumber p) = p) by now destruct p.
      rewrite Hpp in *.
      destruct (hasGoodDeltaAll cm (refDeltaE st) p baseColors (Some refBaseDelta)) eqn:H1;
        cbn [negb].
      * destruct (hasGoodDeltaAll cm (refDeltaE st) p classified (Some refDelta)) eqn:H2;
          cbn [negb].
        -- destruct (IH (raw ++ [p]) Hwf') as (more & Heq & Hlen & Hall).
           exists (p :: more). split; [rewrite Heq, <- app_assoc; reflexivity|].
           split; [cbn; lia|]. constructor; [|now apply Hweak].
           split; [now left|]. auto.
        -- destruct (IH raw Hwf') as (more & Heq & Hlen & Hall).
           exists more. split; [exact Heq|]. split; [cbn; lia | now apply Hweak].
      * destruct (IH raw Hwf') as (more & Heq & Hlen & Hall).
        exists more. split; [exact Heq|]. split; [cbn; lia | now apply Hweak].
Qed.

Lemma consolidate_self_reference (cm : ColorMath) (arr : list Color) (refDelta : Q) :
  exists reps : list Color,
    consolidate cm arr (Array_sort arr) refDelta = Ret reps /\
    Forall (fun c => In c arr) reps /\
    (2 * length reps <= length arr)%nat.
Proof.
  destruct arr as [|c arr].
  - exists []. repeat split; [constructor | cbn; lia].
  - destruct (consolidate_members cm (c :: arr) (Array_sort (c :: arr)) refDelta)
      as (reps & Heq & _ & Hin & Hlen).
    + intros Hnil. apply (f_equal (@length Color)) in Hnil.
      unfold Array_sort in Hnil. rewrite sortBy_length in Hnil. discriminate.
    + exists reps. auto.
Qed.

Lemma luma_band_of_one (others : list Q) :
  (length others <= 1)%nat -> Forall (fun l => (0 <= l <= 255)%Q) others ->
  (runningMax 0 others <= runningMin 255 others)%Q.
Proof.
  intros Hlen Hall. destruct others as [|l [|l' others]]; [cbn; lra | | cbn in Hlen; lia].
  inversion Hall as [|? ? Hl _]; subst. unfold runningMax, runningMin. cbn [fold_left].
  destruct (Qltb 0 l) eqn:H0; destruct (Qltb l 255) eqn:H1;
    rewrite ?Qltb_lt, ?Qltb_ge in H0, H1; lra.
Qed.

(** * The statements about the script *)

(** ** Round 1 *)

(** C5, as the script computes it: for a pair of neighbours [start] and
    [end_], the first number handed to the analyzer is the midpoint
    [start + Math.round ((end_ - start) / 2)], which is
    [start + floor ((end_ - start + 1) / 2)]: halves go up, so the midpoint
    is [start + floor ((end_ - start) / 2)] when the gap is even and one
    more when it is odd. *)
Theorem round1_midpoint_rounds_half_up (cm : ColorMath) (g : Trackers)
    (start end_ : Color) (s : Sampling) :
  wfColor start -> wfColor end_ -> rgbNumber start <= rgbNumber end_ ->
  let d := rgbNumber end_ - rgbNumber start in
  let middle := rgbNumber start + (d + 1) / 2 in
  (exists s' more, samplePair cm g start end_ s = Ret s' /\
                   analyzed s' = analyzed s ++ middle :: more) /\
  middle = rgbNumber start + d / 2 + d mod 2.
Proof.
  intros Hs He Hle d middle. split.
  - destruct (samplePair_trace cm g start end_ s Hs He Hle) as (n & _ & _ & _ & Heq).
    eexists. eexists. split; [exact Heq|]. reflexivity.
  - subst middle. rewrite half_up_parity. lia.
Qed.

Lemma round1_midpoint_rounds_half_up_witness :
  (exists s' more,
      samplePair demoMath (initialTrackers []) (mkColor 16) (mkColor 21)
        {| classified := []; analyzed := [] |} = Ret s' /\
      analyzed s' = [] ++ (16 + (21 - 16 + 1) / 2) :: more) /\
  16 + (21 - 16 + 1) / 2 = 16 + (21 - 16) / 2 + (21 - 16) mod 2.
Proof.
  apply (round1_midpoint_rounds_half_up demoMath (initialTrackers [])
           (mkColor 16) (mkColor 21) {| classified := []; analyzed := [] |});
    unfold wfColor; simpl; lia.
Defined.

(** Between black and the colour 1 the script analyses 1, not
    [0 + floor ((1 - 0) / 2) = 0]. *)
Lemma round1_midpoint_odd_gap :
  samplePair demoMath (initialTrackers []) black (mkColor 1)
    {| classified := []; analyzed := [] |}
  = Ret {| classified := []; analyzed := [1] |}
  /\ rgbNumber black + (rgbNumber (mkColor 1) - rgbNumber black) / 2 = 0.
Proof. split; vm_compute; reflexivity. Qed.

(** C6: for a pair of neighbours the numbers analysed are the midpoint and
    then, for the offsets [j = 1, 2, ..., n], the two numbers [middle + j]
    and [middle - j].  The expansion runs on while [middle - j] is at
    Delta E 2 or more from [start], and it ends before the loop bound
    [samples] only at an offset whose [middle - j] is nearer than 2 to
    [start], which is tested before either number of that offset is
    analysed.  Nothing in the description depends on the distance to
    [end_]. *)
Theorem round1_expansion_stops_on_lower_side (cm : ColorMath) (g : Trackers)
    (start end_ : Color) (s : Sampling) :
  wfColor start -> wfColor end_ -> rgbNumber start <= rgbNumber end_ ->
  let samples := samplesOf start end_ in
  let middle := rgbNumber start + samples in
  let distanceToStart (j : Z) :=
    getDeltaE00 cm (toLab cm (mkColor (middle - j))) (toLab cm start) in
  exists n : nat,
    Z.of_nat n <= Z.max 0 (samples - 1) /\
    (forall j, 1 <= j <= Z.of_nat n -> (2 <= distanceToStart j)%Q) /\
    (Z.of_nat n + 1 < samples -> (distanceToStart (Z.of_nat n + 1)%Z < 2)%Q) /\
    exists s', samplePair cm g start end_ s = Ret s' /\
               analyzed s' = analyzed s ++ middle :: probesAt middle (offsetsFrom 1 n) /\
               classified s'
               = classified s ++ accepted cm g (middle :: probesAt middle (offsetsFrom 1 n)).
Proof.
  intros Hs He Hle samples middle distanceToStart.
  pose proof (samplePair_trace cm g start end_ s Hs He Hle) as H.
  cbv zeta in H. rewrite <- (samplesOf_value start end_) in H.
  fold samples in H. fold middle in H.
  destruct H as (n & Hn & Hfar & Hstop & Heq).
  exists n. split; [exact Hn|]. split; [|split].
  - intros j Hj. apply Qltb_ge. apply (Hfar j Hj).
  - intros Hlt. apply Qltb_lt. apply (Hstop Hlt).
  - eexists. split; [exact Heq|]. split; reflexivity.
Qed.

Lemma round1_expansion_stops_on_lower_side_witness :
  let start := mkColor 3355392 in
  let end_ := mkColor 3355456 in
  let middle := rgbNumber start + samplesOf start end_ in
  exists n : nat,
    Z.of_nat n <= Z.max 0 (samplesOf start end_ - 1) /\
    (forall j, 1 <= j <= Z.of_nat n ->
       (2 <= getDeltaE00 demoMath (toLab demoMath (mkColor (middle - j)))
                         (toLab demoMath start))%Q) /\
    (Z.of_nat n + 1 < samplesOf start end_ ->
       (getDeltaE00 demoMath (toLab demoMath (mkColor (middle - (Z.of_nat n + 1))))
                    (toLab demoMath start) < 2)%Q) /\
    exists s', samplePair demoMath (initialTrackers []) start end_
                 {| classified := []; analyzed := [] |} = Ret s' /\
               analyzed s' = [] ++ middle :: probesAt middle (offsetsFrom 1 n) /\
               classified s'
               = [] ++ accepted demoMath (initialTrackers [])
                         (middle :: probesAt middle (offsetsFrom 1 n)).
Proof.
  apply (round1_expansion_stops_on_lower_side demoMath (initialTrackers [])
           (mkColor 3355392) (mkColor 3355456) {| classified := []; analyzed := [] |});
    unfold wfColor; simpl; lia.
Defined.

(** ** The analyzer *)

(** C3, as the script tests it: on a 24-bit number [analyze] never throws
    and returns either nothing or the colour of that number; it returns the
    colour exactly when the five measures lie strictly inside their bands:
    both contrast ratios strictly between 3 and 21, the Delta E to white
    strictly between [refMinWhiteDeltaE] and 100, the Delta E to black
    strictly between [refMinBlackDeltaE] and 100, the luma strictly between
    [refMinLuma] and [refMaxLuma].  A measure that equals an end of its
    band is rejected. *)
Theorem analyze_accepts_strictly_inside_bands (cm : ColorMath) (g : Trackers) (n : Z) :
  0 <= n < 16777216 ->
  let color := mkColor n in
  let whiteContrast := Contrast_hex cm (hex color) "#ffffff" in
  let blackContrast := Contrast_hex cm (hex color) "#000000" in
  let whiteDeltaE := getDeltaE00 cm (toLab cm color) (whiteLab cm) in
  let blackDeltaE := getDeltaE00 cm (toLab cm color) (blackLab cm) in
  (exists r, analyze cm g n = Ret r /\ (r = None \/ r = Some color)) /\
  (analyze cm g n = Ret (Some color) <->
   (3 < whiteContrast /\ whiteContrast < 21)%Q /\
   (3 < blackContrast /\ blackContrast < 21)%Q /\
   (refMinWhiteDeltaE g < whiteDeltaE /\ whiteDeltaE < 100)%Q /\
   (refMinBlackDeltaE g < blackDeltaE /\ blackDeltaE < 100)%Q /\
   (refMinLuma g < luma cm color /\ luma cm color < refMaxLuma g)%Q).
Proof.
  intros Hn color whiteContrast blackContrast whiteDeltaE blackDeltaE.
  split; [exact (analyze_in_range cm g n Hn)|].
  unfold analyze. rewrite Spectra_rgbNumberToHex by exact Hn. cbn [bind].
  fold color. fold whiteContrast. fold blackContrast. fold whiteDeltaE. fold blackDeltaE.
  rewrite <- !between_open.
  destruct (between whiteContrast 3 21 None);
    [|split; [discriminate | intros (H & _); discriminate]].
  destruct (between blackContrast 3 21 None);
    [|split; [discriminate | intros (_ & H & _); discriminate]].
  destruct (between whiteDeltaE (refMinWhiteDeltaE g) 100 None);
    [|split; [discriminate | intros (_ & _ & H & _); discriminate]].
  destruct (between blackDeltaE (refMinBlackDeltaE g) 100 None);
    [|split; [discriminate | intros (_ & _ & _ & H & _); discriminate]].
  destruct (between (luma cm color) (refMinLuma g) (refMaxLuma g) None);
    [|split; [discriminate | intros (_ & _ & _ & _ & H); discriminate]].
  cbn. tauto.
Qed.

Lemma analyze_accepts_strictly_inside_bands_witness :
  let color := mkColor 3355443 in
  let g := initialTrackers [] in
  (exists r, analyze demoMath g 3355443 = Ret r /\ (r = None \/ r = Some color)) /\
  (analyze demoMath g 3355443 = Ret (Some color) <->
   (3 < Contrast_hex demoMath (hex color) "#ffffff"
    /\ Contrast_hex demoMath (hex color) "#ffffff" < 21)%Q /\
   (3 < Contrast_hex demoMath (hex color) "#000000"
    /\ Contrast_hex demoMath (hex color) "#000000" < 21)%Q /\
   (refMinWhiteDeltaE g < getDeltaE00 demoMath (toLab demoMath color) (whiteLab demoMath)
    /\ getDeltaE00 demoMath (toLab demoMath color) (whiteLab demoMath) < 100)%Q /\
   (refMinBlackDeltaE g < getDeltaE00 demoMath (toLab demoMath color) (blackLab demoMath)
    /\ getDeltaE00 demoMath (toLab demoMath color) (blackLab demoMath) < 100)%Q /\
   (refMinLuma g < luma demoMath color /\ luma demoMath color < refMaxLuma g)%Q).
Proof.
  apply (analyze_accepts_strictly_inside_bands demoMath (initialTrackers []) 3355443). lia.
Defined.

(** A value at an end of the band fails the test of [between]; and with
    the statistics of the single base colour [#333333], that very colour
    passes the five checks on closed bands while [analyze] returns
    nothing. *)
Lemma analyze_rejects_band_ends :
  between 3 3 21 None = false /\ between 21 3 21 None = false /\
  Qeq_bool (Contrast_hex demoMath "#000000" "#ffffff") 21 = true /\
  (do st <- statistics demoMath [mkColor 3355443];
   Ret (closedBandChecks demoMath (trackers st) (mkColor 3355443),
        analyze demoMath (trackers st) 3355443))
  = Ret (true, Ret None).
Proof. repeat split; vm_compute; reflexivity. Qed.

(** ** The distance filter *)

(** C10, as the script behaves: when the threshold handed to
    [hasGoodDeltaAll] is 0 the filter works with [refDeltaE] in its place,
    as it does when no threshold is given: the colour is kept exactly when
    no colour of [arr] is nearer to it than [refDeltaE]. *)
Theorem hasGoodDeltaAll_zero_threshold (cm : ColorMath) (refDeltaE : Q)
    (color : Color) (arr : list Color) (threshold : Q) :
  (threshold == 0)%Q ->
  hasGoodDeltaAll cm refDeltaE color arr (Some threshold)
  = hasGoodDeltaAll cm refDeltaE color arr None
  /\ (hasGoodDeltaAll cm refDeltaE color arr (Some threshold) = true <->
      Forall (fun other =>
                (refDeltaE <= getDeltaE00 cm (toLab cm color) (toLab cm other))%Q) arr).
Proof.
  intros Hzero. apply Qeq_bool_iff in Hzero.
  unfold hasGoodDeltaAll, orDefault. rewrite Hzero. split; [reflexivity|].
  rewrite negb_true_iff, <- not_true_iff_false, existsb_exists, List.Forall_forall.
  split.
  - intros Hnone other Hin. apply Qltb_ge.
    destruct (Qltb _ refDeltaE) eqn:Hlt; [|reflexivity].
    exfalso. apply Hnone. exists other. split; [exact Hin | exact Hlt].
  - intros Hall (other & Hin & Hlt). apply Hall in Hin.
    apply Qltb_lt in Hlt. exact (Qlt_not_le _ _ Hlt Hin).
Qed.

Lemma hasGoodDeltaAll_zero_threshold_witness :
  hasGoodDeltaAll demoMath 5 (mkColor 3355443) [black; white] (Some 0%Q)
  = hasGoodDeltaAll demoMath 5 (mkColor 3355443) [black; white] None
  /\ (hasGoodDeltaAll demoMath 5 (mkColor 3355443) [black; white] (Some 0%Q) = true <->
      Forall (fun other =>
                (5 <= getDeltaE00 demoMath (toLab demoMath (mkColor 3355443))
                                  (toLab demoMath other))%Q) [black; white]).
Proof.
  apply (hasGoodDeltaAll_zero_threshold demoMath 5 (mkColor 3355443) [black; white] 0%Q).
  reflexivity.
Defined.

(** With one base colour [refDeltaE] is itself 0, and the filter with
    threshold 0 keeps a colour although the array holds that very colour,
    at distance 0. *)
Lemma hasGoodDeltaAll_zero_default :
  Qeq_bool (getDeltaE00 demoMath (toLab demoMath (mkColor 3355443))
                        (toLab demoMath (mkColor 3355443))) 0 = true /\
  (do st <- statistics demoMath [mkColor 3355443];
   Ret (Qeq_bool (refDeltaE st) 0,
        hasGoodDeltaAll demoMath (refDeltaE st) (mkColor 3355443)
          [mkColor 3355443; black; white] (Some 0%Q)))
  = Ret (true, true).
Proof. split; vm_compute; reflexivity. Qed.

(** ** The consolidator *)

(** C7: [consolidate] groups the sorted array: a rearrangement of the
    candidates in ascending order of RGB number, made before the grouping
    loop reads anything. *)
Theorem consolidate_sorts_first (cm : ColorMath) (arr ref : list Color) (refDelta : Q) :
  Forall wfColor arr ->
  exists sorted : list Color,
    Permutation arr sorted /\
    StronglySorted (fun a b => rgbNumber a <= rgbNumber b) sorted /\
    consolidate cm arr ref refDelta
    = mapM (representative cm ref) (snd (groupPairs cm refDelta sorted [] [])).
Proof.
  intros Hwf. exists (Array_sort arr).
  split; [apply Array_sort_perm|]. split; [now apply Array_sort_sorted|].
  unfold consolidate. now destruct (groupPairs cm refDelta (Array_sort arr) [] []).
Qed.

Lemma consolidate_sorts_first_witness :
  exists sorted : list Color,
    Permutation [mkColor 10066329; mkColor 3355443; mkColor 15658734] sorted /\
    StronglySorted (fun a b => rgbNumber a <= rgbNumber b) sorted /\
    consolidate demoMath [mkColor 10066329; mkColor 3355443; mkColor 15658734] [black] 5
    = mapM (representative demoMath [black]) (snd (groupPairs demoMath 5 sorted [] [])).
Proof.
  apply (consolidate_sorts_first demoMath
           [mkColor 10066329; mkColor 3355443; mkColor 15658734] [black] 5).
  repeat constructor; simpl; lia.
Defined.

(** C1 fails on the script, by a missed case.  The grouping loop puts
    every colour in [group] but hands a group to the second loop only
    where it cuts a pair, so the group that is still open when the loop
    ends gives no colour.  A lone candidate is in that group: it comes
    back as the empty list, whatever the reference and the threshold. *)
Theorem consolidate_drops_open_group (cm : ColorMath) (c : Color) (ref : list Color)
    (refDelta : Q) :
  groupPairs cm refDelta (Array_sort [c]) [] [] = ([c], []) /\
  consolidate cm [c] ref refDelta = Ret [].
Proof. split; reflexivity. Qed.

(** The same on concrete colours; and of four candidates whose second and
    third are 70 apart, with the threshold at 5, none is cut from the
    others, since the loop index goes up by two: all four stay in the open
    group, where a cut between every two distant neighbours would close
    one. *)
Lemma consolidate_leaves_candidates_out :
  consolidate demoMath [mkColor 3355443] [black] 5 = Ret [] /\
  let arr := [mkColor 3355443; mkColor 3421236; mkColor 15658734; mkColor 15724527] in
  Array_sort arr = arr /\
  Qltb 5 (getDeltaE00 demoMath (toLab demoMath (mkColor 3421236))
                      (toLab demoMath (mkColor 15658734))) = true /\
  splitRuns (pairCut demoMath 5) 0 arr [] [] = (arr, []) /\
  splitRuns (neighbourCut demoMath 5) 0 arr [] []
  = ([mkColor 15658734; mkColor 15724527], [[mkColor 3355443; mkColor 3421236]]) /\
  consolidate demoMath arr [black] 5 = Ret [].
Proof. repeat split; vm_compute; reflexivity. Qed.

(** C2 fails on the script, by the same missed case.  Two colours that
    are further apart than the threshold form a consolidated set, each in a
    group of its own; [consolidate] cuts between them, returns the first
    and drops the second with the open group, in whichever order the two
    come. *)
Theorem consolidate_loses_second_of_two (cm : ColorMath) (a0 a1 : Color)
    (ref : list Color) (refDelta : Q) :
  wfColor a0 -> wfColor a1 -> rgbNumber a0 < rgbNumber a1 ->
  (refDelta < getDeltaE00 cm (toLab cm a0) (toLab cm a1))%Q ->
  ref <> [] ->
  groupPairs cm refDelta (Array_sort [a0; a1]) [] [] = ([a1], [[a0]]) /\
  consolidate cm [a0; a1] ref refDelta = Ret [a0] /\
  consolidate cm [a1; a0] ref refDelta = Ret [a0].
Proof.
  intros H0 H1 Hlt Hfar Href.
  assert (Hs01 : Array_sort [a0; a1] = [a0; a1]).
  { unfold Array_sort, sortBy. cbn [fold_right insertSorted].
    rewrite toString_leb by assumption.
    destruct (Z.leb_spec (rgbNumber a0) (rgbNumber a1)); [reflexivity | lia]. }
  assert (Hs10 : Array_sort [a1; a0] = [a0; a1]).
  { unfold Array_sort, sortBy. cbn [fold_right insertSorted].
    rewrite toString_leb by assumption.
    destruct (Z.leb_spec (rgbNumber a1) (rgbNumber a0)); [lia | reflexivity]. }
  assert (Hgroups : groupPairs cm refDelta [a0; a1] [] [] = ([a1], [[a0]])).
  { cbn [groupPairs]. apply Qltb_lt in Hfar. rewrite Hfar. reflexivity. }
  assert (Hrep : representative cm ref [a0] = Ret a0).
  { destruct (representative_Ret cm ref [a0] Href) as (c & Hc); [discriminate|].
    pose proof (representative_member cm ref [a0] c Hc) as Hin.
    destruct Hin as [->|[]]. exact Hc. }
  split; [now rewrite Hs01|].
  unfold consolidate. rewrite Hs01, Hs10, Hgroups. cbn [mapM]. rewrite Hrep.
  split; reflexivity.
Qed.

Lemma consolidate_loses_second_of_two_witness :
  groupPairs demoMath 5 (Array_sort [mkColor 3355443; mkColor 10066329]) [] []
  = ([mkColor 10066329], [[mkColor 3355443]]) /\
  consolidate demoMath [mkColor 3355443; mkColor 10066329] [black] 5
  = Ret [mkColor 3355443] /\
  consolidate demoMath [mkColor 10066329; mkColor 3355443] [black] 5
  = Ret [mkColor 3355443].
Proof.
  apply (consolidate_loses_second_of_two demoMath (mkColor 3355443) (mkColor 10066329)
           [black] 5).
  - unfold wfColor; simpl; lia.
  - unfold wfColor; simpl; lia.
  - simpl; lia.
  - reflexivity.
  - discriminate.
Defined.

(** The same on more colours: three that are pairwise more than 5 apart
    come back as one, and a lone colour as none. *)
Lemma consolidate_not_idempotent :
  let arr := [mkColor 3355443; mkColor 10066329; mkColor 15658734] in
  Qltb 5 (getDeltaE00 demoMath (toLab demoMath (mkColor 3355443))
                      (toLab demoMath (mkColor 10066329))) = true /\
  Qltb 5 (getDeltaE00 demoMath (toLab demoMath (mkColor 3355443))
                      (toLab demoMath (mkColor 15658734))) = true /\
  Qltb 5 (getDeltaE00 demoMath (toLab demoMath (mkColor 10066329))
                      (toLab demoMath (mkColor 15658734))) = true /\
  consolidate demoMath arr [black] 5 = Ret [mkColor 3355443] /\
  consolidate demoMath [mkColor 3355443] [black] 5 = Ret [].
Proof. repeat split; vm_compute; reflexivity. Qed.

(** ** The adaptive threshold *)

(** C8: for non-empty [source] and [ref], [adjustDelta] returns the median
    of the list that holds, for each colour of [source], the least Delta E
    from it to a colour of [ref]; on [source = ref = [c]] that is the
    Delta E of [c] to itself, hence 0 when a colour is at distance 0 from
    itself. *)
Theorem adjustDelta_median_of_minima (cm : ColorMath) (source ref : list Color) :
  source <> [] -> ref <> [] ->
  exists (mins : list Q) (m : Q),
    adjustDelta cm source ref = Ret m /\
    Forall2 (fun color d =>
               isMinimumOf (map (fun refColor =>
                                   getDeltaE00 cm (toLab cm color) (toLab cm refColor)) ref) d)
            source mins /\
    isMedianOf mins m /\
    (forall c, source = [c] -> ref = [c] ->
               m = getDeltaE00 cm (toLab cm c) (toLab cm c) /\
               ((getDeltaE00 cm (toLab cm c) (toLab cm c) == 0)%Q -> (m == 0)%Q)).
Proof.
  intros Hsource Href. unfold adjustDelta.
  destruct (mapM_Ret
              (fun color => math_min
                              (map (fun refColor =>
                                      getDeltaE00 cm (toLab cm color) (toLab cm refColor)) ref))
              source) as (mins & Hmins & Hall).
  { apply Forall_forall. intros color _.
    destruct (math_min_spec
                (map (fun refColor => getDeltaE00 cm (toLab cm color) (toLab cm refColor)) ref))
      as (d & Hd & _); [destruct ref; [congruence | discriminate] | eauto]. }
  rewrite Hmins. cbn [bind].
  destruct (math_median_spec mins) as (m & Hm & Hmed).
  { apply Forall2_length in Hall. destruct mins; [|discriminate].
    destruct source; [congruence | discriminate]. }
  exists mins, m. split; [exact Hm|]. split; [|split; [exact Hmed|]].
  - clear -Hall Href. induction Hall as [|color d source mins Hd _ IH]; constructor; [|exact IH].
    destruct (math_min_spec
                (map (fun refColor => getDeltaE00 cm (toLab cm color) (toLab cm refColor)) ref))
      as (d' & Hd' & Hmin); [destruct ref; [congruence | discriminate]|].
    rewrite Hd in Hd'. now injection Hd' as ->.
  - intros c -> ->. cbn in Hmins. injection Hmins as <-. cbn in Hm. injection Hm as <-.
    split; [reflexivity | auto].
Qed.

Lemma adjustDelta_median_of_minima_witness :
  exists (mins : list Q) (m : Q),
    adjustDelta demoMath [mkColor 3355443] [mkColor 3355443] = Ret m /\
    Forall2 (fun color d =>
               isMinimumOf (map (fun refColor =>
                                   getDeltaE00 demoMath (toLab demoMath color)
                                     (toLab demoMath refColor)) [mkColor 3355443]) d)
            [mkColor 3355443] mins /\
    isMedianOf mins m /\
    (forall c, [mkColor 3355443] = [c] -> [mkColor 3355443] = [c] ->
               m = getDeltaE00 demoMath (toLab demoMath c) (toLab demoMath c) /\
               ((getDeltaE00 demoMath (toLab demoMath c) (toLab demoMath c) == 0)%Q ->
                (m == 0)%Q)).
Proof.
  apply (adjustDelta_median_of_minima demoMath [mkColor 3355443] [mkColor 3355443]);
    discriminate.
Defined.

(** ** The cache *)

(** C9: when no cache file exists for [id] and the compute function
    returns a set of colours, [memoize] returns that set and stores it;
    a second [memoize] with the same [id] then returns the same colours,
    with the same hex codes in the same order, whatever compute function
    it is given: it only adds its log line, and the compute function is
    not run. *)
Theorem memoize_round_trip (id : string) (callback : World -> js (list Color * World))
    (w w' : World) (result : list Color) :
  files w !! cachePathOf id = None ->
  callback w = Ret (result, w') ->
  Forall wfColor result ->
  exists w1,
    memoize id callback w = Ret (result, w1) /\
    files w1 !! cachePathOf id = Some (JSON_stringify result) /\
    forall callback' : World -> js (list Color * World),
    exists reloaded,
      memoize id callback' w1
      = Ret (reloaded, log_info ("Results loaded from cache: " ++ cachePathOf id)%string w1) /\
      map hex reloaded = map hex result /\
      reloaded = result.
Proof.
  intros Hnone Hcall Hwf.
  exists (writeFileSync (cachePathOf id) (JSON_stringify result) w').
  split; [|split].
  - unfold memoize. rewrite Hnone, Hcall. reflexivity.
  - cbn [writeFileSync files]. apply lookup_insert_eq.
  - intros callback'. exists result. split; [|split; reflexivity].
    unfold memoize. cbn [writeFileSync files]. rewrite lookup_insert_eq.
    rewrite reload_stringify by exact Hwf. reflexivity.
Qed.

Lemma memoize_round_trip_witness :
  let w := {| files := ∅; logged := [] |} in
  let result := [mkColor 3355443; black] in
  exists w1,
    memoize "base-colors-first" (fun w => Ret (result, log_info "computing" w)) w
    = Ret (result, w1) /\
    files w1 !! cachePathOf "base-colors-first" = Some (JSON_stringify result) /\
    forall callback' : World -> js (list Color * World),
    exists reloaded,
      memoize "base-colors-first" callback' w1
      = Ret (reloaded,
             log_info ("Results loaded from cache: " ++ cachePathOf "base-colors-first")%string
               w1) /\
      map hex reloaded = map hex result /\
      reloaded = result.
Proof.
  apply (memoize_round_trip "base-colors-first"
           (fun w => Ret ([mkColor 3355443; black], log_info "computing" w))
           {| files := ∅; logged := [] |}
           (log_info "computing" {| files := ∅; logged := [] |})
           [mkColor 3355443; black]).
  - reflexivity.
  - reflexivity.
  - repeat constructor; simpl; lia.
Defined.

(** ** The statistics pass *)

(** C4, as the script computes it: on a non-empty list of base colours the
    pass stores the three measures of every base colour in
    [baseColorsData].  Each tracker starts from its initial value (100,
    100, 255 for the minima, 0 for the maximum) and is updated only with
    the measures of the base colours other than pure black and pure white:
    it ends at the least (respectively greatest) of its initial value and
    those measures. *)
Theorem statistics_trackers (cm : ColorMath) (baseColors : list Color) :
  baseColors <> [] -> Forall wfColor baseColors ->
  let blackDeltaE := fun color => getDeltaE00 cm (toLab cm color) (blackLab cm) in
  let whiteDeltaE := fun color => getDeltaE00 cm (toLab cm color) (whiteLab cm) in
  let others := List.filter tracked baseColors in
  exists st,
    statistics cm baseColors = Ret st /\
    (forall c, In c baseColors ->
       cell (baseColorsData (trackers st)) (hex c) "blackDeltaE" = Some (blackDeltaE c) /\
       cell (baseColorsData (trackers st)) (hex c) "whiteDeltaE" = Some (whiteDeltaE c) /\
       cell (baseColorsData (trackers st)) (hex c) "luma" = Some (luma cm c)) /\
    isRunningMin 100 (map blackDeltaE others) (refMinBlackDeltaE (trackers st)) /\
    isRunningMin 100 (map whiteDeltaE others) (refMinWhiteDeltaE (trackers st)) /\
    isRunningMin 255 (map (luma cm) others) (refMinLuma (trackers st)) /\
    isRunningMax 0 (map (luma cm) others) (refMaxLuma (trackers st)).
Proof.
  intros Hne Hwf blackDeltaE whiteDeltaE others.
  destruct (statistics_value cm baseColors Hne) as (mB & mW & mD & mL & Heq & _).
  fold blackDeltaE whiteDeltaE others in Heq.
  eexists. split; [exact Heq|]. cbn [trackers baseColorsData refMinBlackDeltaE
                                     refMinWhiteDeltaE refMinLuma refMaxLuma].
  split; [|repeat split; try apply runningMin_spec; try apply runningMax_spec].
  intros c Hc.
  assert (Hsame : forall c', In c' baseColors -> hex c' = hex c -> c' = c).
  { intros c' Hc' Hhex. rewrite List.Forall_forall in Hwf. apply hex_inj; auto. }
  pose proof (registerBaseColors_keys baseColors c Hc) as Hk0.
  pose proof (proj2 (dataAfter_keys "blackDeltaE" blackDeltaE baseColors _ (hex c)) Hk0)
    as Hk1.
  pose proof (proj2 (dataAfter_keys "whiteDeltaE" whiteDeltaE baseColors _ (hex c)) Hk1)
    as Hk2.
  split; [|split].
  - rewrite !dataAfter_other_metric by discriminate.
    destruct (dataAfter_metric "blackDeltaE" blackDeltaE baseColors _ c Hc Hk0)
      as (c' & Hc' & Hhex & ->).
    now rewrite (Hsame c' Hc' Hhex).
  - rewrite dataAfter_other_metric by discriminate.
    destruct (dataAfter_metric "whiteDeltaE" whiteDeltaE baseColors _ c Hc Hk1)
      as (c' & Hc' & Hhex & ->).
    now rewrite (Hsame c' Hc' Hhex).
  - destruct (dataAfter_metric "luma" (luma cm) baseColors _ c Hc Hk2)
      as (c' & Hc' & Hhex & ->).
    now rewrite (Hsame c' Hc' Hhex).
Qed.

Lemma statistics_trackers_witness :
  let baseColors := [mkColor 3355443; black] in
  let blackDeltaE :=
    fun color => getDeltaE00 demoMath (toLab demoMath color) (blackLab demoMath) in
  let whiteDeltaE :=
    fun color => getDeltaE00 demoMath (toLab demoMath color) (whiteLab demoMath) in
  let others := List.filter tracked baseColors in
  exists st,
    statistics demoMath baseColors = Ret st /\
    (forall c, In c baseColors ->
       cell (baseColorsData (trackers st)) (hex c) "blackDeltaE" = Some (blackDeltaE c) /\
       cell (baseColorsData (trackers st)) (hex c) "whiteDeltaE" = Some (whiteDeltaE c) /\
       cell (baseColorsData (trackers st)) (hex c) "luma" = Some (luma demoMath c)) /\
    isRunningMin 100 (map blackDeltaE others) (refMinBlackDeltaE (trackers st)) /\
    isRunningMin 100 (map whiteDeltaE others) (refMinWhiteDeltaE (trackers st)) /\
    isRunningMin 255 (map (luma demoMath) others) (refMinLuma (trackers st)) /\
    isRunningMax 0 (map (luma demoMath) others) (refMaxLuma (trackers st)).
Proof.
  apply (statistics_trackers demoMath [mkColor 3355443; black]).
  - discriminate.
  - repeat constructor; simpl; lia.
Defined.

(** With black and white as the base colours the trackers stay at 100 and
    0, while the least Delta E to black over the list is 0 and the greatest
    luma is 255. *)
Lemma statistics_skip_black_and_white :
  (do st <- statistics demoMath [black; white];
   Ret (refMinBlackDeltaE (trackers st), refMaxLuma (trackers st)))
  = Ret (100%Q, 0%Q) /\
  Qeq_bool (getDeltaE00 demoMath (toLab demoMath black) (blackLab demoMath)) 0 = true /\
  Qeq_bool (luma demoMath white) 255 = true.
Proof. repeat split; vm_compute; reflexivity. Qed.

(** * Further properties of the script *)

(** ** Hex codes *)

(** X1: on 24-bit numbers the codes of [rgbNumberToHex] compare, as
    strings, the way the numbers compare; in particular two numbers with
    the same code are equal. *)
Theorem rgbNumberToHex_order (a b : Z) :
  0 <= a < 16777216 -> 0 <= b < 16777216 ->
  String.compare (rgbNumberToHex a) (rgbNumberToHex b) = (a ?= b) /\
  (rgbNumberToHex a = rgbNumberToHex b -> a = b).
Proof.
  intros Ha Hb. split.
  - apply (toString_compare (mkColor a) (mkColor b)); assumption.
  - intros Heq.
    assert (H : mkColor a = mkColor b) by (apply hex_inj; assumption).
    now injection H.
Qed.

Lemma rgbNumberToHex_order_witness :
  String.compare (rgbNumberToHex 2730) (rgbNumberToHex 4096) = (2730 ?= 4096) /\
  (rgbNumberToHex 2730 = rgbNumberToHex 4096 -> 2730 = 4096).
Proof. apply (rgbNumberToHex_order 2730 4096); lia. Defined.

(** X2: the code of a 24-bit number has seven characters, the hash and six
    digits (short numbers are padded with zeros), and [Spectra] reads the
    number back from it. *)
Theorem rgbNumberToHex_round_trip (n : Z) :
  0 <= n < 16777216 ->
  String.length (rgbNumberToHex n) = 7%nat /\
  (exists digits, rgbNumberToHex n = String "#"%char digits /\
                  parseHexDigits digits 0 = Some n) /\
  Spectra (rgbNumberToHex n) = Ret (mkColor n).
Proof.
  intros Hn. split; [|split].
  - rewrite rgbNumberToHex_fixed by exact Hn. cbn [String.length].
    now rewrite fixedHex_length.
  - exists (fixedHex 6 n ""). split; [now apply rgbNumberToHex_fixed|].
    rewrite parseHexDigits_fixed. change (16 ^ Z.of_nat 6) with 16777216.
    now rewrite Z.mod_small by lia.
  - now apply Spectra_rgbNumberToHex.
Qed.

Lemma rgbNumberToHex_round_trip_witness :
  String.length (rgbNumberToHex 2730) = 7%nat /\
  (exists digits, rgbNumberToHex 2730 = String "#"%char digits /\
                  parseHexDigits digits 0 = Some 2730) /\
  Spectra (rgbNumberToHex 2730) = Ret (mkColor 2730).
Proof. apply (rgbNumberToHex_round_trip 2730); lia. Defined.

(** ** Bands *)

(** X3: with a reference value and a margin, [between] accepts exactly the
    values that lie strictly inside both the band ([minimum], [maximum])
    and the band of the margin around the reference value. *)
Theorem between_ref_intersects (v minimum maximum : Q) (r : Ref) :
  let spread := (value r * (margin r / 100))%Q in
  between v minimum maximum (Some r)
  = between v minimum maximum None
    && between v (value r - spread)%Q (value r + spread)%Q None.
Proof.
  intros spread. unfold between. fold spread.
  rewrite (Qltb_raised_floor v (value r - spread) minimum).
  rewrite (Qltb_lowered_ceiling v (value r + spread) maximum).
  destruct (Qltb minimum v), (Qltb (value r - spread) v), (Qltb v maximum),
    (Qltb v (value r + spread)); reflexivity.
Qed.

(** X4: widening the bands never rejects an accepted number: a number
    that [analyze] accepts under trackers [g] is accepted under any
    trackers with lower minima and a higher luma maximum. *)
Theorem analyze_monotone (cm : ColorMath) (g g' : Trackers) (n : Z) (c : Color) :
  (refMinWhiteDeltaE g' <= refMinWhiteDeltaE g)%Q ->
  (refMinBlackDeltaE g' <= refMinBlackDeltaE g)%Q ->
  (refMinLuma g' <= refMinLuma g)%Q ->
  (refMaxLuma g <= refMaxLuma g')%Q ->
  analyze cm g n = Ret (Some c) -> analyze cm g' n = Ret (Some c).
Proof.
  intros HW HB HL HM. unfold analyze.
  destruct (Spectra (rgbNumberToHex n)) as [color|]; cbn [bind]; [|discriminate].
  destruct (between (Contrast_hex cm (hex color) "#ffffff") 3 21 None);
    cbn [negb]; [|discriminate].
  destruct (between (Contrast_hex cm (hex color) "#000000") 3 21 None);
    cbn [negb]; [|discriminate].
  destruct (between _ (refMinWhiteDeltaE g) 100 None) eqn:H1; cbn [negb]; [|discriminate].
  destruct (between _ (refMinBlackDeltaE g) 100 None) eqn:H2; cbn [negb]; [|discriminate].
  destruct (between _ (refMinLuma g) (refMaxLuma g) None) eqn:H3; cbn [negb]; [|discriminate].
  apply between_open in H1, H2, H3.
  assert (H1' : between (getDeltaE00 cm (toLab cm color) (whiteLab cm))
                  (refMinWhiteDeltaE g') 100 None = true) by (apply between_open; lra).
  assert (H2' : between (getDeltaE00 cm (toLab cm color) (blackLab cm))
                  (refMinBlackDeltaE g') 100 None = true) by (apply between_open; lra).
  assert (H3' : between (luma cm color) (refMinLuma g') (refMaxLuma g') None = true)
    by (apply between_open; lra).
  rewrite H1', H2', H3'. cbn [negb]. auto.
Qed.

Lemma analyze_monotone_witness :
  analyze demoMath
    (setMinBlackDeltaE 5 (setMinWhiteDeltaE 5 (setMaxLuma 255 (setMinLuma 0
       (initialTrackers []))))) 3355443
  = Ret (Some (mkColor 3355443)).
Proof.
  apply (analyze_monotone demoMath
           (setMinBlackDeltaE 10 (setMinWhiteDeltaE 10 (setMaxLuma 200 (setMinLuma 10
              (initialTrackers [])))))
           (setMinBlackDeltaE 5 (setMinWhiteDeltaE 5 (setMaxLuma 255 (setMinLuma 0
              (initialTrackers []))))) 3355443 (mkColor 3355443));
    try (cbn; lra).
  vm_compute. reflexivity.
Defined.

(** X5: when the luma band is empty, the maximum not above the minimum,
    [analyze] accepts no 24-bit number. *)
Theorem analyze_empty_luma_band (cm : ColorMath) (g : Trackers) (n : Z) :
  (refMaxLuma g <= refMinLuma g)%Q -> 0 <= n < 16777216 ->
  analyze cm g n = Ret None.
Proof.
  intros Hband Hn. unfold analyze. rewrite Spectra_rgbNumberToHex by exact Hn.
  cbn [bind].
  destruct (between (luma cm (mkColor n)) (refMinLuma g) (refMaxLuma g) None) eqn:Hb.
  - apply between_open in Hb. lra.
  - repeat match goal with
           | |- (if negb ?b then Ret None else ?k) = Ret None =>
               destruct b; cbn [negb]; [|reflexivity]
           end.
    reflexivity.
Qed.

Lemma analyze_empty_luma_band_witness :
  analyze demoMath (initialTrackers []) 3355443 = Ret None.
Proof.
  apply (analyze_empty_luma_band demoMath (initialTrackers []) 3355443); [cbn; lra | lia].
Defined.

(** ** The distance filter *)

(** X6: with a threshold other than 0, [hasGoodDeltaAll] keeps a colour
    exactly when every colour of the array is at that Delta E or more from
    it; [refDeltaE] plays no part, and an empty array keeps every colour. *)
Theorem hasGoodDeltaAll_threshold (cm : ColorMath) (refDeltaE : Q)
    (color : Color) (arr : list Color) (threshold : Q) :
  ~ (threshold == 0)%Q ->
  hasGoodDeltaAll cm refDeltaE color [] (Some threshold) = true /\
  (hasGoodDeltaAll cm refDeltaE color arr (Some threshold) = true <->
   Forall (fun other =>
             (threshold <= getDeltaE00 cm (toLab cm color) (toLab cm other))%Q) arr).
Proof.
  intros Hnz. split; [reflexivity|].
  unfold hasGoodDeltaAll, orDefault.
  destruct (Qeq_bool threshold 0) eqn:Hz; [apply Qeq_bool_iff in Hz; contradiction|].
  rewrite negb_true_iff, <- not_true_iff_false, existsb_exists, List.Forall_forall.
  split.
  - intros Hnone other Hin. apply Qltb_ge.
    destruct (Qltb _ threshold) eqn:Hlt; [|reflexivity].
    exfalso. apply Hnone. exists other. split; [exact Hin | exact Hlt].
  - intros Hall (other & Hin & Hlt). apply Hall in Hin.
    apply Qltb_lt in Hlt. exact (Qlt_not_le _ _ Hlt Hin).
Qed.

Lemma hasGoodDeltaAll_threshold_witness :
  hasGoodDeltaAll demoMath 5 (mkColor 3355443) [] (Some 10%Q) = true /\
  (hasGoodDeltaAll demoMath 5 (mkColor 3355443) [black; white] (Some 10%Q) = true <->
   Forall (fun other =>
             (10 <= getDeltaE00 demoMath (toLab demoMath (mkColor 3355443))
                                (toLab demoMath other))%Q) [black; white]).
Proof.
  apply (hasGoodDeltaAll_threshold demoMath 5 (mkColor 3355443) [black; white] 10%Q).
  intros H. discriminate H.
Defined.

(** ** Round 1 *)



(** X8: on an ascending list of 24-bit base colours [runAnalyzer] does not
    throw; every number it analyses is a 24-bit number; and what it
    returns is, in analysis order, exactly the analysed numbers that
    [analyze] accepts: each returned colour is one [analyze] returns for
    its own number.  On the empty list it analyses nothing. *)
Theorem runAnalyzer_returns_accepted (cm : ColorMath) (g : Trackers)
    (baseColors : list Color) :
  Forall wfColor baseColors ->
  Sorted (fun a b => rgbNumber a <= rgbNumber b) baseColors ->
  exists s : Sampling,
    runAnalyzerTraced cm g baseColors = Ret s /\
    runAnalyzer cm g baseColors = Ret (classified s) /\
    classified s = accepted cm g (analyzed s) /\
    Forall (fun n => 0 <= n < 16777216) (analyzed s) /\
    Forall (fun c => wfColor c /\ analyze cm g (rgbNumber c) = Ret (Some c)) (classified s) /\
    (baseColors = [] -> analyzed s = []).
Proof.
  intros Hwf Hsorted.
  assert (Hin : Forall wfColor (withSentinels baseColors) /\
                Sorted (fun a b => rgbNumber a <= rgbNumber b) (withSentinels baseColors)).
  { destruct baseColors as [|c l]; [split; constructor|].
    destruct (withSentinels_shape (c :: l)) as (_ & _ & _ & _ & _ & _ & _ & H1 & H2);
      [discriminate | assumption | assumption | auto]. }
  destruct Hin as (Hwf' & Hsorted').
  destruct (samplePairs_trace cm g (withSentinels baseColors)
              {| classified := []; analyzed := [] |} Hwf' Hsorted')
    as (new & Heq & Hrange & Hshort).
  cbn [classified analyzed app] in Heq.
  eexists. split; [exact Heq|]. cbn [classified analyzed].
  split; [unfold runAnalyzer; fold (runAnalyzerTraced cm g baseColors) in Heq;
          now rewrite Heq|].
  split; [reflexivity|]. split; [exact Hrange|]. split.
  - apply List.Forall_forall. intros c Hc.
    destruct (accepted_analyze cm g new c Hrange Hc) as (_ & Ha & Hw). auto.
  - intros ->. apply Hshort. cbn. lia.
Qed.

Lemma runAnalyzer_returns_accepted_witness :
  exists s : Sampling,
    runAnalyzerTraced demoMath (initialTrackers []) [black; mkColor 3] = Ret s /\
    runAnalyzer demoMath (initialTrackers []) [black; mkColor 3] = Ret (classified s) /\
    classified s = accepted demoMath (initialTrackers []) (analyzed s) /\
    Forall (fun n => 0 <= n < 16777216) (analyzed s) /\
    Forall (fun c => wfColor c /\
                     analyze demoMath (initialTrackers []) (rgbNumber c) = Ret (Some c))
           (classified s) /\
    ([black; mkColor 3] = [] -> analyzed s = []).
Proof.
  apply (runAnalyzer_returns_accepted demoMath (initialTrackers []) [black; mkColor 3]).
  - repeat constructor; simpl; lia.
  - repeat constructor; simpl; lia.
Defined.

(** X9: every number analysed for a pair of neighbours lies between the
    two, ends included: the expansion never leaves the bracket. *)
Theorem samplePair_stays_in_bracket (cm : ColorMath) (g : Trackers)
    (start end_ : Color) (s : Sampling) :
  wfColor start -> wfColor end_ -> rgbNumber start <= rgbNumber end_ ->
  exists s' new,
    samplePair cm g start end_ s = Ret s' /\
    analyzed s' = analyzed s ++ new /\
    classified s' = classified s ++ accepted cm g new /\
    Forall (fun x => rgbNumber start <= x <= rgbNumber end_) new /\
    (rgbNumber start = rgbNumber end_ -> new = [rgbNumber start]).
Proof.
  intros Hs He Hle.
  destruct (samplePair_trace cm g start end_ s Hs He Hle) as (n & Hn & _ & _ & Heq).
  pose proof (samplePair_bracket start end_ n Hle Hn) as Hbr. cbv zeta in Heq, Hbr.
  eexists. eexists. split; [exact Heq|]. cbn [analyzed classified].
  split; [reflexivity|]. split; [reflexivity|]. split; [exact Hbr|].
  intros Hsame. rewrite Hsame, Z.sub_diag in Hn |- *.
  change ((0 + 1) / 2) with 0 in Hn |- *.
  assert (n = 0%nat) as -> by lia. cbn. now rewrite Z.add_0_r.
Qed.

Lemma samplePair_stays_in_bracket_witness :
  exists s' new,
    samplePair demoMath (initialTrackers []) (mkColor 3355392) (mkColor 3355456)
      {| classified := []; analyzed := [] |} = Ret s' /\
    analyzed s' = [] ++ new /\
    classified s' = [] ++ accepted demoMath (initialTrackers []) new /\
    Forall (fun x => 3355392 <= x <= 3355456) new /\
    (3355392 = 3355456 -> new = [3355392]).
Proof.
  apply (samplePair_stays_in_bracket demoMath (initialTrackers [])
           (mkColor 3355392) (mkColor 3355456) {| classified := []; analyzed := [] |});
    unfold wfColor; simpl; lia.
Defined.

(** ** The consolidator *)

(** X10: whatever the candidates, with a non-empty reference [consolidate]
    returns a subsequence of the sorted candidates: colours of the input
    only, in ascending order of the sort, and at most one for every two
    candidates. *)
Theorem consolidate_subsequence (cm : ColorMath) (arr ref : list Color) (refDelta : Q) :
  ref <> [] ->
  exists reps : list Color,
    consolidate cm arr ref refDelta = Ret reps /\
    sublist reps (Array_sort arr) /\
    Forall (fun c => In c arr) reps /\
    (2 * length reps <= length arr)%nat.
Proof. apply consolidate_members. Qed.

Lemma consolidate_subsequence_witness :
  exists reps : list Color,
    consolidate demoMath [mkColor 10066329; mkColor 3355443; mkColor 15658734] [black] 5
    = Ret reps /\
    sublist reps (Array_sort [mkColor 10066329; mkColor 3355443; mkColor 15658734]) /\
    Forall (fun c => In c [mkColor 10066329; mkColor 3355443; mkColor 15658734]) reps /\
    (2 * length reps <= length [mkColor 10066329; mkColor 3355443; mkColor 15658734])%nat.
Proof.
  apply (consolidate_subsequence demoMath
           [mkColor 10066329; mkColor 3355443; mkColor 15658734] [black] 5).
  discriminate.
Defined.

(** X11: with an empty reference [consolidate] returns the empty list when
    the walk closes no group, and throws, from [math.median] of an empty
    array, as soon as it closes one. *)
Theorem consolidate_empty_reference (cm : ColorMath) (arr : list Color) (refDelta : Q) :
  consolidate cm arr [] refDelta
  = match snd (splitRuns (pairCut cm refDelta) 0 (Array_sort arr) [] []) with
    | [] => Ret []
    | _ :: _ => Throw "Cannot calculate median of an empty array"
    end.
Proof.
  destruct (consolidate_runs cm arr [] refDelta)
    as (groups & open & Hsplit & _ & Hne & _ & Heq).
  rewrite Heq, Hsplit. cbn [snd].
  destruct groups as [|group groups]; [reflexivity|].
  inversion Hne as [|? ? Hg _]; subst.
  cbn [mapM]. now rewrite representative_throws_without_reference.
Qed.

(** X12: the colour [consolidate] keeps of a group is the member whose
    median Delta E to the reference is the greatest of the group, and the
    first such member: no member before it reaches that median. *)
Theorem representative_first_maximum (cm : ColorMath) (ref group : list Color) (c : Color) :
  representative cm ref group = Ret c ->
  exists (deltas : list Q) (i : nat) (d m : Q),
    Forall2 (fun color delta =>
               isMedianOf (map (fun r => getDeltaE00 cm (toLab cm color) (toLab cm r)) ref)
                          delta) group deltas /\
    isMaximumOf deltas m /\
    nth_error group i = Some c /\ nth_error deltas i = Some d /\ (d == m)%Q /\
    forall j z, (j < i)%nat -> nth_error deltas j = Some z -> (z < m)%Q.
Proof.
  unfold representative. intros Hrep.
  destruct (mapM _ group) as [deltas|] eqn:Hdeltas; cbn [bind] in Hrep; [|discriminate].
  destruct (math_max deltas) as [m|] eqn:Hmax; cbn [bind] in Hrep; [|discriminate].
  destruct (nth_error group (Z.to_nat (indexOf deltas m))) as [c'|] eqn:Hnth;
    [|discriminate].
  destruct (Z.ltb_spec (indexOf deltas m) 0) as [|Hpos]; [discriminate|].
  injection Hrep as ->.
  apply mapM_inv in Hdeltas. apply math_max_inv in Hmax.
  destruct (indexOf_first deltas m Hpos) as (d & Hd & Hdm & Hfirst).
  exists deltas, (Z.to_nat (indexOf deltas m)), d, m.
  split; [|split; [exact Hmax|split; [exact Hnth|split; [exact Hd|split; [exact Hdm|]]]]].
  - eapply List.Forall2_impl; [|exact Hdeltas]. intros color delta Hm.
    now apply math_median_inv in Hm.
  - intros j z Hj Hz. destruct Hmax as (_ & Hall).
    rewrite List.Forall_forall in Hall.
    assert (Hle : (z <= m)%Q) by (apply Hall; eapply nth_error_In; exact Hz).
    specialize (Hfirst j z Hj Hz).
    destruct (Qlt_le_dec z m) as [Hlt|Hge]; [exact Hlt|].
    exfalso. apply Hfirst. now apply Qle_antisym.
Qed.

Lemma representative_first_maximum_witness :
  exists (deltas : list Q) (i : nat) (d m : Q),
    Forall2 (fun color delta =>
               isMedianOf (map (fun r => getDeltaE00 demoMath (toLab demoMath color)
                                           (toLab demoMath r)) [black])
                          delta) [mkColor 3355443; mkColor 10066329] deltas /\
    isMaximumOf deltas m /\
    nth_error [mkColor 3355443; mkColor 10066329] i = Some (mkColor 10066329) /\
    nth_error deltas i = Some d /\ (d == m)%Q /\
    forall j z, (j < i)%nat -> nth_error deltas j = Some z -> (z < m)%Q.
Proof.
  apply (representative_first_maximum demoMath [black]
           [mkColor 3355443; mkColor 10066329] (mkColor 10066329)).
  vm_compute. reflexivity.
Defined.

(** X13: the result of [consolidate] does not depend on the order in which
    the candidates come. *)
Theorem consolidate_order_independent (cm : ColorMath) (arr arr' ref : list Color)
    (refDelta : Q) :
  Forall wfColor arr -> Permutation arr arr' ->
  consolidate cm arr ref refDelta = consolidate cm arr' ref refDelta.
Proof.
  intros Hwf Hperm. unfold consolidate.
  now rewrite (Array_sort_unique arr arr' Hwf Hperm).
Qed.

Lemma consolidate_order_independent_witness :
  consolidate demoMath [mkColor 10066329; mkColor 3355443] [black] 5
  = consolidate demoMath [mkColor 3355443; mkColor 10066329] [black] 5.
Proof.
  apply (consolidate_order_independent demoMath
           [mkColor 10066329; mkColor 3355443] [mkColor 3355443; mkColor 10066329]
           [black] 5).
  - repeat constructor; simpl; lia.
  - apply perm_swap.
Defined.

(** ** The adaptive threshold *)

(** X14: [adjustDelta] returns a number exactly when both lists are
    non-empty; with no source colour it throws from [math.median], with
    source colours and no reference colour from [math.min]. *)
Theorem adjustDelta_defined (cm : ColorMath) (source ref : list Color) :
  ((exists m, adjustDelta cm source ref = Ret m) <-> source <> [] /\ ref <> []) /\
  adjustDelta cm [] ref = Throw "Cannot calculate median of an empty array" /\
  (source <> [] ->
   adjustDelta cm source [] = Throw "Cannot calculate min of an empty array").
Proof.
  split; [|split].
  - split.
    + intros (m & Hm). destruct source as [|c source]; [discriminate|].
      destruct ref; [discriminate|]. split; discriminate.
    + intros (Hs & Hr). destruct (adjustDelta_value cm source ref Hs Hr) as (_ & m & Hm & _).
      eauto.
  - reflexivity.
  - destruct source; [congruence | reflexivity].
Qed.

(** X15: the threshold [adjustDelta] returns lies between any two bounds
    that hold for every Delta E from a source colour to a reference colour;
    it is not negative when no distance is. *)
Theorem adjustDelta_between (cm : ColorMath) (source ref : list Color) (a b : Q) :
  source <> [] -> ref <> [] ->
  (forall s r, In s source -> In r ref ->
               (a <= getDeltaE00 cm (toLab cm s) (toLab cm r) <= b)%Q) ->
  exists m, adjustDelta cm source ref = Ret m /\ (a <= m <= b)%Q.
Proof.
  intros Hs Hr Hbounds.
  destruct (adjustDelta_value cm source ref Hs Hr) as (mins & m & Hm & Hmins & Hmed).
  exists m. split; [exact Hm|].
  apply (median_between mins); [|exact Hmed|].
  - apply Forall2_length in Hmins. destruct mins; [|discriminate].
    destruct source; [congruence | discriminate].
  - assert (Hall : forall color d,
               In color source ->
               isMinimumOf (map (fun refColor =>
                                   getDeltaE00 cm (toLab cm color) (toLab cm refColor)) ref) d ->
               (a <= d <= b)%Q).
    { intros color d Hc (Hin & _). apply in_map_iff in Hin.
      destruct Hin as (r & <- & Hin). now apply Hbounds. }
    clear -Hmins Hall. induction Hmins as [|color d source mins Hd _ IH]; constructor.
    + apply (Hall color d); [now left | exact Hd].
    + apply IH. intros c' d' Hc'. apply Hall. now right.
Qed.

Lemma adjustDelta_between_witness :
  exists m, adjustDelta demoMath [mkColor 3355443] [black; white] = Ret m /\
            (20 <= m <= 80)%Q.
Proof.
  apply (adjustDelta_between demoMath [mkColor 3355443] [black; white] 20 80).
  - discriminate.
  - discriminate.
  - intros s r [<-|[]] [<-|[<-|[]]]; vm_compute; split; discriminate.
Defined.

(** ** The statistics *)

(** X16: on a non-empty list the four medians of the pass are medians over
    all the base colours, black and white included (only the trackers skip
    them), and [refDeltaE] is the median of the per-colour medians of the
    Delta E to every base colour; on the empty list the pass throws. *)
Theorem statistics_medians (cm : ColorMath) (baseColors : list Color) :
  baseColors <> [] ->
  statistics cm [] = Throw "Cannot calculate median of an empty array" /\
  exists st,
    statistics cm baseColors = Ret st /\
    isMedianOf (map (fun c => getDeltaE00 cm (toLab cm c) (blackLab cm)) baseColors)
               (refBlackDeltaE st) /\
    isMedianOf (map (fun c => getDeltaE00 cm (toLab cm c) (whiteLab cm)) baseColors)
               (refWhiteDeltaE st) /\
    isMedianOf (map (luma cm) baseColors) (refLuma st) /\
    exists medians,
      Forall2 (fun color m =>
                 isMedianOf (map (fun baseColor =>
                                    getDeltaE00 cm (toLab cm color) (toLab cm baseColor))
                                 baseColors) m) baseColors medians /\
      isMedianOf medians (refDeltaE st).
Proof.
  intros Hne. split; [reflexivity|].
  destruct (statistics_value cm baseColors Hne)
    as (mB & mW & mD & mL & Heq & HB & HW & HL & medians & Hmed & HD).
  eexists. split; [exact Heq|]. cbn [refBlackDeltaE refWhiteDeltaE refLuma refDeltaE].
  repeat (split; [assumption|]). exists medians. split; assumption.
Qed.

Lemma statistics_medians_witness :
  statistics demoMath [] = Throw "Cannot calculate median of an empty array" /\
  exists st,
    statistics demoMath [black; mkColor 3355443] = Ret st /\
    isMedianOf (map (fun c => getDeltaE00 demoMath (toLab demoMath c) (blackLab demoMath))
                    [black; mkColor 3355443]) (refBlackDeltaE st) /\
    isMedianOf (map (fun c => getDeltaE00 demoMath (toLab demoMath c) (whiteLab demoMath))
                    [black; mkColor 3355443]) (refWhiteDeltaE st) /\
    isMedianOf (map (luma demoMath) [black; mkColor 3355443]) (refLuma st) /\
    exists medians,
      Forall2 (fun color m =>
                 isMedianOf (map (fun baseColor =>
                                    getDeltaE00 demoMath (toLab demoMath color)
                                      (toLab demoMath baseColor))
                                 [black; mkColor 3355443]) m)
              [black; mkColor 3355443] medians /\
      isMedianOf medians (refDeltaE st).
Proof.
  apply (statistics_medians demoMath [black; mkColor 3355443]). discriminate.
Defined.

(** ** Runs that select nothing *)

(** X17: when at most one base colour is neither pure black nor pure
    white, and lumas lie between 0 and 255, the luma band of the analyzer
    is empty after the statistics pass.  Round 1 then returns no colour at
    all, and round 2, run on that empty result, throws from [math.median]
    of an empty array. *)
Theorem single_colour_run_selects_nothing (cm : ColorMath) (baseColors : list Color) :
  baseColors <> [] -> Forall wfColor baseColors ->
  Sorted (fun a b => rgbNumber a <= rgbNumber b) baseColors ->
  (length (List.filter tracked baseColors) <= 1)%nat ->
  (forall c, In c baseColors -> (0 <= luma cm c <= 255)%Q) ->
  exists st,
    statistics cm baseColors = Ret st /\
    (refMaxLuma (trackers st) <= refMinLuma (trackers st))%Q /\
    runAnalyzer cm (trackers st) baseColors = Ret [] /\
    runRound cm [] baseColors (secondRound cm st)
    = Throw "Cannot calculate median of an empty array".
Proof.
  intros Hne Hwf Hsorted Hone Hluma.
  destruct (statistics_value cm baseColors Hne) as (mB & mW & mD & mL & Heq & _).
  eexists. split; [exact Heq|]. cbn [trackers refMaxLuma refMinLuma].
  match goal with
  | |- _ /\ runAnalyzer cm ?t _ = _ /\ _ => set (g := t)
  end.
  assert (Hband : (refMaxLuma g <= refMinLuma g)%Q).
  { subst g. cbn [refMaxLuma refMinLuma]. apply luma_band_of_one.
    - now rewrite length_map.
    - apply List.Forall_forall. intros l Hl. apply in_map_iff in Hl.
      destruct Hl as (c & <- & Hc). apply Hluma. apply filter_In in Hc. tauto. }
  split; [exact Hband|]. split; [|reflexivity].
  assert (Hin : Forall wfColor (withSentinels baseColors) /\
                Sorted (fun a b => rgbNumber a <= rgbNumber b) (withSentinels baseColors)).
  { destruct (withSentinels_shape baseColors Hne Hwf Hsorted)
      as (_ & _ & _ & _ & _ & _ & _ & H1 & H2). auto. }
  destruct Hin as (Hwf' & Hsorted').
  destruct (samplePairs_trace cm g (withSentinels baseColors)
              {| classified := []; analyzed := [] |} Hwf' Hsorted')
    as (new & Hrun & Hrange & _).
  unfold runAnalyzer, runAnalyzerTraced. rewrite Hrun. cbn [bind classified app].
  rewrite accepted_nothing; [reflexivity|].
  intros n Hn. apply analyze_none_empty_band; [exact Hband|].
  rewrite List.Forall_forall in Hrange. now apply Hrange.
Qed.

Lemma single_colour_run_selects_nothing_witness :
  exists st,
    statistics demoMath [mkColor 3355443] = Ret st /\
    (refMaxLuma (trackers st) <= refMinLuma (trackers st))%Q /\
    runAnalyzer demoMath (trackers st) [mkColor 3355443] = Ret [] /\
    runRound demoMath [] [mkColor 3355443] (secondRound demoMath st)
    = Throw "Cannot calculate median of an empty array".
Proof.
  apply (single_colour_run_selects_nothing demoMath [mkColor 3355443]).
  - discriminate.
  - repeat constructor; simpl; lia.
  - repeat constructor.
  - vm_compute. lia.
  - intros c [<-|[]]. vm_compute. split; discriminate.
Defined.

(** ** The rounds *)

(** X18: the second round selects only colours of its source that pass
    the distance filter against every reference colour, at most one for
    every two source colours; with a non-empty reference it does not
    throw. *)
Theorem secondRound_selection (cm : ColorMath) (st : Stats)
    (source ref : list Color) (refDelta : Q) (selected : list Color) :
  ref <> [] ->
  exists chosen : list Color,
    secondRound cm st source ref refDelta selected = Ret (selected ++ chosen) /\
    Forall (fun c =>
              In c source /\
              hasGoodDeltaAll cm (refDeltaE st) c ref (Some refDelta) = true) chosen /\
    (2 * length chosen <= length source)%nat.
Proof.
  intros Href. unfold secondRound.
  set (raw := List.filter _ source).
  destruct (consolidate_members cm raw ref 49 Href) as (chosen & Heq & _ & Hin & Hlen).
  exists chosen. rewrite Heq. cbn [bind]. split; [reflexivity|]. split.
  - eapply List.Forall_impl; [|exact Hin]. cbn beta. intros c Hc.
    subst raw. apply filter_In in Hc. exact Hc.
  - assert (length raw <= length source)%nat by apply List.filter_length_le. lia.
Qed.

Lemma secondRound_selection_witness :
  exists chosen : list Color,
    secondRound demoMath
      {| trackers := initialTrackers []; refBlackDeltaE := 0; refWhiteDeltaE := 0;
         refDeltaE := 5; refLuma := 0 |}
      [mkColor 3355443; mkColor 10066329] [black] 10 [] = Ret ([] ++ chosen) /\
    Forall (fun c =>
              In c [mkColor 3355443; mkColor 10066329] /\
              hasGoodDeltaAll demoMath 5 c [black] (Some 10%Q) = true) chosen /\
    (2 * length chosen <= length [mkColor 3355443; mkColor 10066329])%nat.
Proof.
  apply (secondRound_selection demoMath
           {| trackers := initialTrackers []; refBlackDeltaE := 0; refWhiteDeltaE := 0;
              refDeltaE := 5; refLuma := 0 |}
           [mkColor 3355443; mkColor 10066329] [black] 10 []).
  discriminate.
Defined.

(** X19: with base colours and a palette of 24-bit colours, the third
    round does not throw, and every colour it selects is a colour of the
    palette that [analyze] accepts and that passes the distance filter
    against the base colours and against the colours of the second round;
    it selects at most one colour for every four of the palette. *)
Theorem thirdRound_selection (cm : ColorMath) (st : Stats)
    (baseColors classified : list Color) (refBaseDelta : Q)
    (source ref : list Color) (refDelta : Q) (selected : list Color) :
  baseColors <> [] -> Forall wfColor ref ->
  exists chosen : list Color,
    thirdRound cm st baseColors classified refBaseDelta source ref refDelta selected
    = Ret (selected ++ chosen) /\
    Forall (fun c =>
              In c ref /\
              analyze cm (trackers st) (rgbNumber c) = Ret (Some c) /\
              hasGoodDeltaAll cm (refDeltaE st) c baseColors (Some refBaseDelta) = true /\
              hasGoodDeltaAll cm (refDeltaE st) c classified (Some refDelta) = true)
           chosen /\
    (4 * length chosen <= length ref)%nat.
Proof.
  intros Hbase Hwf. unfold thirdRound.
  destruct (thirdRoundRaw_spec cm st baseColors classified refBaseDelta refDelta ref [] Hwf)
    as (raw & Hraw & Hlen & Hall).
  rewrite Hraw. cbn [bind app].
  destruct (consolidate_members cm raw baseColors 5 Hbase) as (tmp & Htmp & _ & Hin1 & Hlen1).
  rewrite Htmp. cbn [bind].
  destruct (consolidate_self_reference cm tmp 5) as (chosen & Hchosen & Hin2 & Hlen2).
  rewrite Hchosen. cbn [bind].
  exists chosen. split; [reflexivity|]. split; [|lia].
  rewrite List.Forall_forall in Hin1, Hin2, Hall. apply List.Forall_forall.
  intros c Hc. apply Hall, Hin1, Hin2, Hc.
Qed.

Lemma thirdRound_selection_witness :
  exists chosen : list Color,
    thirdRound demoMath
      {| trackers := initialTrackers []; refBlackDeltaE := 0; refWhiteDeltaE := 0;
         refDeltaE := 5; refLuma := 0 |}
      [black] [] 10 [] [mkColor 3355443; mkColor 10066329] 10 []
    = Ret ([] ++ chosen) /\
    Forall (fun c =>
              In c [mkColor 3355443; mkColor 10066329] /\
              analyze demoMath (initialTrackers []) (rgbNumber c) = Ret (Some c) /\
              hasGoodDeltaAll demoMath 5 c [black] (Some 10%Q) = true /\
              hasGoodDeltaAll demoMath 5 c [] (Some 10%Q) = true)
           chosen /\
    (4 * length chosen <= length [mkColor 3355443; mkColor 10066329])%nat.
Proof.
  apply (thirdRound_selection demoMath
           {| trackers := initialTrackers []; refBlackDeltaE := 0; refWhiteDeltaE := 0;
              refDeltaE := 5; refLuma := 0 |}
           [black] [] 10 [] [mkColor 3355443; mkColor 10066329] 10 []).
  - discriminate.
  - repeat constructor; simpl; lia.
Defined.

(** ** The cache and the loader *)

(** X20: two different identifiers have different cache files, and a
    [memoize] whose compute function leaves the files alone changes no
    cache file but its own. *)
Theorem memoize_touches_own_file (id id' : string)
    (callback : World -> js (list Color * World)) (w w1 : World) (result : list Color) :
  id' <> id ->
  (forall w0 r w0', callback w0 = Ret (r, w0') -> files w0' = files w0) ->
  memoize id callback w = Ret (result, w1) ->
  cachePathOf id' <> cachePathOf id /\
  files w1 !! cachePathOf id' = files w !! cachePathOf id'.
Proof.
  intros Hid Hframe Hrun.
  assert (Hpath : cachePathOf id' <> cachePathOf id).
  { intros Heq. apply Hid. now apply cachePathOf_inj. }
  split; [exact Hpath|]. unfold memoize in Hrun.
  destruct (files w !! cachePathOf id) as [loaded|].
  - destruct (mapM _ loaded); cbn [bind] in Hrun; [|discriminate].
    now injection Hrun as _ <-.
  - destruct (callback w) as [[r w0']|] eqn:Hcall; cbn [bind] in Hrun; [|discriminate].
    injection Hrun as _ <-. cbn [writeFileSync files].
    rewrite lookup_insert_ne by congruence. now rewrite (Hframe w r w0' Hcall).
Qed.

Lemma memoize_touches_own_file_witness :
  cachePathOf "base-colors-second" <> cachePathOf "base-colors-first" /\
  files (writeFileSync (cachePathOf "base-colors-first") (JSON_stringify [black])
           {| files := ∅; logged := [] |}) !! cachePathOf "base-colors-second"
  = files {| files := ∅; logged := [] |} !! cachePathOf "base-colors-second".
Proof.
  apply (memoize_touches_own_file "base-colors-first" "base-colors-second"
           (fun w => Ret ([black], w)) {| files := ∅; logged := [] |}
           (writeFileSync (cachePathOf "base-colors-first") (JSON_stringify [black])
              {| files := ∅; logged := [] |}) [black]).
  - discriminate.
  - intros w0 r w0' H. now injection H as _ <-.
  - reflexivity.
Defined.

(** X21: loading a file of six-digit lower-case codes gives the colours in
    ascending order of RGB number, whatever the order in the file, and the
    callback of the base colours has then registered every one of them in
    [baseColorsData]. *)
Theorem loadColorsFile_sorts (colors : list Color) :
  Forall wfColor colors ->
  loadColorsFile (map hex colors) (Some registerColor) ∅
  = Ret (Array_sort colors, registerBaseColors (Array_sort colors)) /\
  Permutation colors (Array_sort colors) /\
  StronglySorted (fun a b => rgbNumber a <= rgbNumber b) (Array_sort colors) /\
  (forall c, In c colors -> registerBaseColors (Array_sort colors) !! hex c = Some ∅).
Proof.
  intros Hwf. split; [|split; [apply Array_sort_perm|split; [now apply Array_sort_sorted|]]].
  - unfold loadColorsFile. rewrite sortBy_map.
    change (sortBy (fun a b => String.leb (hex a) (hex b)) colors) with (Array_sort colors).
    apply (load_codes registerColor).
    eapply Permutation_Forall; [apply Array_sort_perm | exact Hwf].
  - intros c Hc.
    assert (Hin : In c (Array_sort colors))
      by (eapply Permutation_in; [apply Array_sort_perm | exact Hc]).
    clear Hc. unfold registerBaseColors.
    induction (Array_sort colors) as [|a l IH] using rev_ind; [destruct Hin|].
    rewrite fold_left_app. cbn [fold_left].
    destruct (decide (hex a = hex c)) as [->|Hne].
    + apply lookup_insert_eq.
    + rewrite lookup_insert_ne by exact Hne.
      apply in_app_or in Hin. destruct Hin as [Hin|[->|[]]]; [now apply IH | congruence].
Qed.

Lemma loadColorsFile_sorts_witness :
  loadColorsFile (map hex [white; mkColor 3355443]) (Some registerColor) ∅
  = Ret (Array_sort [white; mkColor 3355443],
         registerBaseColors (Array_sort [white; mkColor 3355443])) /\
  Permutation [white; mkColor 3355443] (Array_sort [white; mkColor 3355443]) /\
  StronglySorted (fun a b => rgbNumber a <= rgbNumber b)
    (Array_sort [white; mkColor 3355443]) /\
  (forall c, In c [white; mkColor 3355443] ->
             registerBaseColors (Array_sort [white; mkColor 3355443]) !! hex c = Some ∅).
Proof.
  apply (loadColorsFile_sorts [white; mkColor 3355443]).
  repeat constructor; simpl; lia.
Defined.

(** X22: [process] needs the colour to be registered in [baseColorsData]:
    for a colour whose code is not a key it throws (a property is set on
    [undefined]).  For a registered colour it returns the measure and
    stores it under the metric in the row of that colour, leaving the
    other rows and the other metrics of the row as they were. *)
Theorem process_registered_only (metric : string) (measureFn : Color -> Q)
    (updateRelatedFn : option (Q -> Trackers -> Trackers)) (color : Color) (g : Trackers) :
  (forall update v g0, updateRelatedFn = Some update ->
                       baseColorsData (update v g0) = baseColorsData g0) ->
  match baseColorsData g !! hex color with
  | None =>
      process metric measureFn updateRelatedFn color g
      = Throw "TypeError: cannot set a property of undefined"
  | Some _ =>
      exists g',
        process metric measureFn updateRelatedFn color g = Ret (measureFn color, g') /\
        cell (baseColorsData g') (hex color) metric = Some (measureFn color) /\
        (forall key m, key <> hex color \/ m <> metric ->
                       cell (baseColorsData g') key m = cell (baseColorsData g) key m)
  end.
Proof.
  intros Hdata. unfold process, toString.
  set (g1 := if negb (String.eqb (hex color) "#000000")
                && negb (String.eqb (hex color) "#ffffff")
             then match updateRelatedFn with
                  | Some update => update (measureFn color) g
                  | None => g
                  end
             else g).
  assert (Hg : baseColorsData g1 = baseColorsData g).
  { subst g1. destruct (_ && _); [|reflexivity].
    destruct updateRelatedFn as [update|]; [now apply Hdata | reflexivity]. }
  rewrite Hg. destruct (baseColorsData g !! hex color) as [row|] eqn:Hrow; [|reflexivity].
  eexists. split; [reflexivity|]. cbn [setData baseColorsData]. unfold cell. split.
  - rewrite lookup_insert_eq. apply lookup_insert_eq.
  - intros key m Hother. destruct (decide (hex color = key)) as [<-|Hne].
    + rewrite lookup_insert_eq, Hrow. destruct Hother as [Hk|Hm]; [congruence|].
      apply lookup_insert_ne. congruence.
    + now rewrite lookup_insert_ne by exact Hne.
Qed.

Lemma process_registered_only_witness :
  match baseColorsData (initialTrackers [black]) !! hex (mkColor 3355443) with
  | None =>
      process "luma" (luma demoMath) (Some updateLuma) (mkColor 3355443)
        (initialTrackers [black])
      = Throw "TypeError: cannot set a property of undefined"
  | Some _ =>
      exists g',
        process "luma" (luma demoMath) (Some updateLuma) (mkColor 3355443)
          (initialTrackers [black])
        = Ret (luma demoMath (mkColor 3355443), g') /\
        cell (baseColorsData g') (hex (mkColor 3355443)) "luma"
        = Some (luma demoMath (mkColor 3355443)) /\
        (forall key m, key <> hex (mkColor 3355443) \/ m <> "luma" ->
                       cell (baseColorsData g') key m
                       = cell (baseColorsData (initialTrackers [black])) key m)
  end.
Proof.
  apply (process_registered_only "luma" (luma demoMath) (Some updateLuma)
           (mkColor 3355443) (initialTrackers [black])).
  intros update v g0 [= <-]. apply updateLuma_data.
Defined.
